(** * VideoVault: the record store, its filtered view and the generation client

    A shallow embedding of [src/App.tsx] (the record store and the derived
    view), of the type declarations of [types.ts] and of the generation
    client [services/geminiService.ts], followed by the properties the
    specification states about them.

    JavaScript strings are sequences of UTF-16 code units; they are embedded
    as lists of [N].  The builtin [String.prototype.toLowerCase] is a
    parameter of the view.  [JSON.stringify] is written out for the values
    the store holds (strings, arrays, objects, literals) and [JSON.parse] for
    all JSON text, a number being kept as the literal that denotes it.  The
    generation client takes [JSON.parse] and the endpoint as parameters. *)

From stdpp Require Import gmap list strings.
From Stdlib Require Import NArith Lia.

Local Open Scope N_scope.
#[local] Set Warnings "-register-all".

(** ** JavaScript strings *)

Module JS.

Abbreviation jsstring := (list N).

(** An ASCII literal as a JavaScript string. *)
Definition u16 (s : string) : jsstring :=
  map Ascii.N_of_ascii (String.list_ascii_of_string s).

(** [s.startsWith(p)], the test behind [includes] and the global replace. *)
Fixpoint starts_with (p s : jsstring) : bool :=
  match p, s with
  | [], _ => true
  | _ :: _, [] => false
  | a :: p', b :: s' => (a =? b) && starts_with p' s'
  end.

(** [s.includes(q)]: [q] occurs in [s] as a contiguous run of code units. *)
Fixpoint includes (s q : jsstring) : bool :=
  starts_with q s ||
  match s with
  | [] => false
  | _ :: s' => includes s' q
  end.

(** Strict equality [===] of two strings. *)
Fixpoint str_eqb (a b : jsstring) : bool :=
  match a, b with
  | [], [] => true
  | x :: a', y :: b' => (x =? y) && str_eqb a' b'
  | _, _ => false
  end.

(** [s.replace(/p/g, '')] for a literal, non-empty pattern [p]: matches are
    found left to right and do not overlap; [skip] counts the code units of
    the current match still to be dropped. *)
Fixpoint remove_all_from (p : jsstring) (skip : nat) (s : jsstring) : jsstring :=
  match s with
  | [] => []
  | c :: s' =>
      match skip with
      | S k => remove_all_from p k s'
      | O =>
          if starts_with p s
          then remove_all_from p (Nat.pred (length p)) s'
          else c :: remove_all_from p O s'
      end
  end.

Definition remove_all (p s : jsstring) : jsstring := remove_all_from p O s.

(** WhiteSpace and LineTerminator code units, the ones [trim] strips. *)
Definition is_white_space (c : N) : bool :=
  ((9 <=? c) && (c <=? 13)) || (c =? 32) || (c =? 160) || (c =? 5760)
  || ((8192 <=? c) && (c <=? 8202)) || (c =? 8232) || (c =? 8233)
  || (c =? 8239) || (c =? 8287) || (c =? 12288) || (c =? 65279).

Fixpoint trim_start (s : jsstring) : jsstring :=
  match s with
  | [] => []
  | c :: s' => if is_white_space c then trim_start s' else s
  end.

Definition trim_end (s : jsstring) : jsstring := rev (trim_start (rev s)).

Definition trim (s : jsstring) : jsstring := trim_end (trim_start s).

(** Lower-casing of the ASCII letters, one instance of [toLowerCase]. *)
Definition ascii_toLowerCase (s : jsstring) : jsstring :=
  map (fun c => if (65 <=? c) && (c <=? 90) then c + 32 else c) s.

(** Truthiness of a string: only the empty string is falsy. *)
Definition truthy_string (s : jsstring) : bool :=
  match s with [] => false | _ => true end.

End JS.

Import JS.

(** ** types.ts *)

Module Types.

Inductive VideoStatus := UNWATCHED | WATCHING | COMPLETED | ARCHIVED | TRASH.

Inductive VideoCategory :=
| PROGRAMMING | FITNESS | LANGUAGE | DESIGN
| BUSINESS | SCIENCE | ENTERTAINMENT | OTHER.

(** The string each enumeration member stands for. *)
Definition status_value (s : VideoStatus) : jsstring :=
  match s with
  | UNWATCHED => [26410; 30475]
  | WATCHING => [35266; 30475; 20013]
  | COMPLETED => [24050; 30475; 23436]
  | ARCHIVED => [24050; 24402; 26723]
  | TRASH => [24453; 28165; 29702]
  end.

Definition category_value (c : VideoCategory) : jsstring :=
  match c with
  | PROGRAMMING => [32534; 31243; 24320; 21457]
  | FITNESS => [20581; 36523; 36816; 21160]
  | LANGUAGE => [35821; 35328; 23398; 20064]
  | DESIGN => [35774; 35745; 33402; 26415]
  | BUSINESS => [21830; 19994; 36130; 32463]
  | SCIENCE => [31185; 26222; 30693; 35782]
  | ENTERTAINMENT => [23089; 20048; 20241; 38386]
  | OTHER => [20854; 20182]
  end.

(** [Object.values(VideoStatus)] and [Object.values(VideoCategory)], in
    declaration order. *)
Definition status_values : list VideoStatus :=
  [UNWATCHED; WATCHING; COMPLETED; ARCHIVED; TRASH].

Definition category_values : list VideoCategory :=
  [PROGRAMMING; FITNESS; LANGUAGE; DESIGN; BUSINESS; SCIENCE; ENTERTAINMENT; OTHER].

(** The member whose value is a given string, if any. *)
Definition status_of_value (s : jsstring) : option VideoStatus :=
  List.find (fun m => str_eqb (status_value m) s) status_values.

Definition category_of_value (s : jsstring) : option VideoCategory :=
  List.find (fun m => str_eqb (category_value m) s) category_values.

Record Video := mkVideo {
  id : jsstring;
  title : jsstring;
  url : jsstring;
  tags : list jsstring;
  category : VideoCategory;
  status : VideoStatus;
  addedAt : jsstring;
  notes : jsstring;
  aiSummary : option jsstring
}.

Record VideoFormData := mkVideoFormData {
  form_title : jsstring;
  form_url : jsstring;
  form_tags : list jsstring;
  form_category : VideoCategory;
  form_status : VideoStatus;
  form_notes : jsstring
}.

(** The type [T | 'ALL'] of the two drop-down filters. *)
Inductive or_all (T : Type) := ALL | Only (x : T).
Arguments ALL {T}.
Arguments Only {T} x.

#[global] Instance VideoStatus_eq_dec : EqDecision VideoStatus.
Proof. solve_decision. Defined.

#[global] Instance VideoCategory_eq_dec : EqDecision VideoCategory.
Proof. solve_decision. Defined.

#[global] Instance Video_eq_dec : EqDecision Video.
Proof. solve_decision. Defined.

Definition status_eqb (a b : VideoStatus) : bool := bool_decide (a = b).
Definition category_eqb (a b : VideoCategory) : bool := bool_decide (a = b).

End Types.

Import Types.

(** ** App.tsx: the record store and the derived view *)

Module App.

(** The component state the handlers and the view read and write. *)
Record State := mkState {
  videos : list Video;
  editingVideo : option Video;
  detailVideo : option Video;
  searchQuery : jsstring;
  statusFilter : or_all VideoStatus;
  categoryFilter : or_all VideoCategory;
  isAiSearchMode : bool;
  aiMatchedIds : list jsstring;
  aiSearchPerformed : bool
}.

Definition set_videos (f : list Video -> list Video) (st : State) : State :=
  mkState (f (videos st)) (editingVideo st) (detailVideo st) (searchQuery st)
          (statusFilter st) (categoryFilter st) (isAiSearchMode st)
          (aiMatchedIds st) (aiSearchPerformed st).

Definition set_editingVideo (e : option Video) (st : State) : State :=
  mkState (videos st) e (detailVideo st) (searchQuery st)
          (statusFilter st) (categoryFilter st) (isAiSearchMode st)
          (aiMatchedIds st) (aiSearchPerformed st).

Definition set_detailVideo (d : option Video) (st : State) : State :=
  mkState (videos st) (editingVideo st) d (searchQuery st)
          (statusFilter st) (categoryFilter st) (isAiSearchMode st)
          (aiMatchedIds st) (aiSearchPerformed st).

(** [{ ...data, id: crypto.randomUUID(), addedAt: new Date().toISOString() }];
    the fresh identifier and the clock reading are inputs. *)
Definition newVideo (uuid now : jsstring) (data : VideoFormData) : Video :=
  mkVideo uuid (form_title data) (form_url data) (form_tags data)
          (form_category data) (form_status data) now (form_notes data) None.

Definition handleCreate (uuid now : jsstring) (data : VideoFormData) (st : State) : State :=
  set_videos (fun prev => newVideo uuid now data :: prev) st.

(** [{ ...v, ...data }] *)
Definition merge (v : Video) (data : VideoFormData) : Video :=
  mkVideo (id v) (form_title data) (form_url data) (form_tags data)
          (form_category data) (form_status data) (addedAt v) (form_notes data)
          (aiSummary v).

Definition handleUpdate (data : VideoFormData) (st : State) : State :=
  match editingVideo st with
  | None => st
  | Some e =>
      set_editingVideo None
        (set_videos (map (fun v => if str_eqb (id v) (id e) then merge v data else v)) st)
  end.

Definition handleDetailUpdate (updatedVideo : Video) (st : State) : State :=
  set_detailVideo (Some updatedVideo)
    (set_videos
       (map (fun v => if str_eqb (id v) (id updatedVideo) then updatedVideo else v)) st).

(** [confirmed] is the answer of [window.confirm]. *)
Definition handleDelete (confirmed : bool) (i : jsstring) (st : State) : State :=
  if confirmed
  then set_videos (List.filter (fun v => negb (str_eqb (id v) i))) st
  else st.

(** [new Map(videos.map(v => [v.id, v]))]: the entries are set one after
    the other, a later record replaces an earlier one with the same id. *)
Definition matchedMap (vs : list Video) : gmap jsstring Video :=
  foldl (fun m v => <[id v := v]> m) ∅ vs.

Section View.

Variable toLowerCase : jsstring -> jsstring.

Definition matchesSearch (aiMode : bool) (query : jsstring) (video : Video) : bool :=
  if aiMode then true
  else includes (toLowerCase (title video)) (toLowerCase query)
       || existsb (fun t => includes (toLowerCase t) (toLowerCase query)) (tags video).

Definition matchesStatus (f : or_all VideoStatus) (video : Video) : bool :=
  match f with
  | ALL => true
  | Only s => status_eqb (status video) s
  end.

Definition matchesCategory (f : or_all VideoCategory) (video : Video) : bool :=
  match f with
  | ALL => true
  | Only c => category_eqb (category video) c
  end.

Definition filteredVideos (vs : list Video) (query : jsstring)
    (sf : or_all VideoStatus) (cf : or_all VideoCategory)
    (aiMode : bool) (ids : list jsstring) (performed : bool) : list Video :=
  if aiMode && performed
  then omap (fun i => matchedMap vs !! i) ids
  else List.filter
         (fun video => matchesSearch aiMode query video
                       && matchesStatus sf video
                       && matchesCategory cf video) vs.

Definition view (st : State) : list Video :=
  filteredVideos (videos st) (searchQuery st) (statusFilter st)
                 (categoryFilter st) (isAiSearchMode st) (aiMatchedIds st)
                 (aiSearchPerformed st).

End View.

End App.

(** ** JSON values, [JSON.stringify] and [JSON.parse] *)

Module JSON.

(** The values JSON text denotes.  [num] is the type of number values; an
    object lists its members in the order of the text. *)
Inductive json (num : Type) :=
| JNull
| JBool (b : bool)
| JNum (n : num)
| JStr (s : jsstring)
| JArr (l : list (json num))
| JObj (m : list (jsstring * json num)).
Arguments JNull {num}.
Arguments JBool {num} b.
Arguments JNum {num} n.
Arguments JStr {num} s.
Arguments JArr {num} l.
Arguments JObj {num} m.

(** [o[k]] on an object's member list: the last member of that name, which
    is the one a parsed object keeps when a name is repeated. *)
Fixpoint obj_get {num} (k : jsstring) (m : list (jsstring * json num)) : option (json num) :=
  match m with
  | [] => None
  | (k', v) :: m' =>
      match obj_get k m' with
      | Some w => Some w
      | None => if str_eqb k' k then Some v else None
      end
  end.

(** The store holds no numbers: [JSON.stringify] is written out for the
    number-free values. *)
Abbreviation plain := (json Empty_set).

(** What [JSON.parse] answers: a number is kept as the literal denoting it,
    its numeric value is not computed. *)
Abbreviation value := (json jsstring).

(** A number-free value among the values with numbers of type [num]. *)
Fixpoint lift {num} (j : plain) : json num :=
  match j with
  | JNull => JNull
  | JBool b => JBool b
  | JNum n => match n with end
  | JStr s => JStr s
  | JArr l => JArr (map lift l)
  | JObj m => JObj (map (fun kv => (fst kv, lift (snd kv))) m)
  end.

Definition lift_member {num} (kv : jsstring * plain) : jsstring * json num :=
  (fst kv, lift (snd kv)).

(** *** QuoteJSONString *)

Definition is_high_surrogate (c : N) : bool := (55296 <=? c) && (c <=? 56319).
Definition is_low_surrogate (c : N) : bool := (56320 <=? c) && (c <=? 57343).

Definition hex_digit (d : N) : N := if d <? 10 then 48 + d else 87 + d.

(** [\uXXXX], four lower-case hexadecimal digits. *)
Definition unicode_escape (c : N) : jsstring :=
  [92; 117; hex_digit (c / 4096 mod 16); hex_digit (c / 256 mod 16);
   hex_digit (c / 16 mod 16); hex_digit (c mod 16)].

(** One code unit that is not part of a surrogate pair. *)
Definition quote_unit (c : N) : jsstring :=
  if c =? 8 then [92; 98]
  else if c =? 9 then [92; 116]
  else if c =? 10 then [92; 110]
  else if c =? 12 then [92; 102]
  else if c =? 13 then [92; 114]
  else if c =? 34 then [92; 34]
  else if c =? 92 then [92; 92]
  else if (c <? 32) || is_high_surrogate c || is_low_surrogate c then unicode_escape c
  else [c].

Fixpoint quote_body (s : jsstring) : jsstring :=
  match s with
  | [] => []
  | c :: s' =>
      match s' with
      | d :: s'' =>
          if is_high_surrogate c && is_low_surrogate d
          then c :: d :: quote_body s''
          else quote_unit c ++ quote_body s'
      | [] => quote_unit c
      end
  end.

Definition quote (s : jsstring) : jsstring := 34 :: quote_body s ++ [34].

(** *** JSON.stringify, without indentation *)

Fixpoint join_comma (parts : list jsstring) : jsstring :=
  match parts with
  | [] => []
  | [p] => p
  | p :: rest => p ++ 44 :: join_comma rest
  end.

Fixpoint stringify (j : plain) : jsstring :=
  match j with
  | JNull => u16 "null"
  | JBool true => u16 "true"
  | JBool false => u16 "false"
  | JNum n => match n with end
  | JStr s => quote s
  | JArr l => 91 :: join_comma (map stringify l) ++ [93]
  | JObj m =>
      123 :: join_comma (map (fun kv => quote (fst kv) ++ 58 :: stringify (snd kv)) m)
          ++ [125]
  end.

(** *** JSON.parse *)

Definition is_json_ws (c : N) : bool :=
  (c =? 32) || (c =? 9) || (c =? 10) || (c =? 13).

Fixpoint skip_ws (s : jsstring) : jsstring :=
  match s with
  | [] => []
  | c :: s' => if is_json_ws c then skip_ws s' else s
  end.

Definition hex_value (c : N) : option N :=
  if (48 <=? c) && (c <=? 57) then Some (c - 48)
  else if (97 <=? c) && (c <=? 102) then Some (c - 87)
  else if (65 <=? c) && (c <=? 70) then Some (c - 55)
  else None.

Definition hex4_value (a b c d : N) : option N :=
  match hex_value a, hex_value b, hex_value c, hex_value d with
  | Some x, Some y, Some z, Some w => Some (x * 4096 + y * 256 + z * 16 + w)
  | _, _, _, _ => None
  end.

(** The character a single-character escape stands for. *)
Definition unescape (e : N) : option N :=
  if e =? 34 then Some 34
  else if e =? 92 then Some 92
  else if e =? 47 then Some 47
  else if e =? 98 then Some 8
  else if e =? 102 then Some 12
  else if e =? 110 then Some 10
  else if e =? 114 then Some 13
  else if e =? 116 then Some 9
  else None.

Definition cons_result (c : N) (r : option (jsstring * jsstring)) :
    option (jsstring * jsstring) :=
  match r with
  | Some (str, rest) => Some (c :: str, rest)
  | None => None
  end.

(** The characters of a string literal after its opening quote, up to and
    including the closing quote; the result is the string and what follows. *)
Fixpoint parse_chars (s : jsstring) : option (jsstring * jsstring) :=
  match s with
  | [] => None
  | c :: s' =>
      if c =? 34 then Some ([], s')
      else if c =? 92 then
        match s' with
        | [] => None
        | e :: s'' =>
            if e =? 117 then
              match s'' with
              | h1 :: h2 :: h3 :: h4 :: s4 =>
                  match hex4_value h1 h2 h3 h4 with
                  | Some u => cons_result u (parse_chars s4)
                  | None => None
                  end
              | _ => None
              end
            else
              match unescape e with
              | Some u => cons_result u (parse_chars s'')
              | None => None
              end
        end
      else if c <? 32 then None
      else cons_result c (parse_chars s')
  end.

(** Number literals: [-]? int frac? exp?, with int = 0 | [1-9][0-9]*,
    frac = . [0-9]+ and exp = [eE] [+-]? [0-9]+. *)
Definition is_digit (c : N) : bool := (48 <=? c) && (c <=? 57).

Fixpoint take_digits (s : jsstring) : jsstring * jsstring :=
  match s with
  | [] => ([], [])
  | c :: s' =>
      if is_digit c
      then let '(ds, rest) := take_digits s' in (c :: ds, rest)
      else ([], s)
  end.

Definition lex_int (s : jsstring) : option (jsstring * jsstring) :=
  match s with
  | [] => None
  | c :: s' =>
      if c =? 48 then Some ([c], s')
      else if is_digit c
           then let '(ds, rest) := take_digits s' in Some (c :: ds, rest)
           else None
  end.

Definition lex_digits1 (s : jsstring) : option (jsstring * jsstring) :=
  match take_digits s with
  | ([], _) => None
  | (ds, rest) => Some (ds, rest)
  end.

Definition lex_frac (s : jsstring) : option (jsstring * jsstring) :=
  match s with
  | c :: s' =>
      if c =? 46
      then match lex_digits1 s' with
           | Some (ds, rest) => Some (c :: ds, rest)
           | None => None
           end
      else Some ([], s)
  | [] => Some ([], s)
  end.

Definition lex_sign (s : jsstring) : jsstring * jsstring :=
  match s with
  | c :: s' => if (c =? 43) || (c =? 45) then ([c], s') else ([], s)
  | [] => ([], s)
  end.

Definition lex_exp (s : jsstring) : option (jsstring * jsstring) :=
  match s with
  | c :: s' =>
      if (c =? 101) || (c =? 69)
      then let '(sign, s'') := lex_sign s' in
           match lex_digits1 s'' with
           | Some (ds, rest) => Some (c :: sign ++ ds, rest)
           | None => None
           end
      else Some ([], s)
  | [] => Some ([], s)
  end.

Definition lex_number (s : jsstring) : option (jsstring * jsstring) :=
  let '(minus, s1) :=
    match s with
    | c :: s' => if c =? 45 then ([c], s') else ([], s)
    | [] => ([], s)
    end in
  match lex_int s1 with
  | None => None
  | Some (i, s2) =>
      match lex_frac s2 with
      | None => None
      | Some (f, s3) =>
          match lex_exp s3 with
          | None => None
          | Some (e, s4) => Some (minus ++ i ++ f ++ e, s4)
          end
      end
  end.

(** Truthiness of a number literal: some digit of its mantissa is not 0.  (A
    literal so small that it reads as the number 0 is not told apart.) *)
Fixpoint literal_truthy (lit : jsstring) : bool :=
  match lit with
  | [] => false
  | c :: rest =>
      if (c =? 101) || (c =? 69) then false
      else ((49 <=? c) && (c <=? 57)) || literal_truthy rest
  end.

(** A literal name ([null], [true], [false]) at the head of the text. *)
Definition parse_literal (name : jsstring) (v : value) (s : jsstring) :
    option (value * jsstring) :=
  if starts_with name s then Some (v, drop (length name) s) else None.

(** Recursive descent; [fuel] bounds the nesting and the number of members
    read, the length of the text is always enough. *)
Fixpoint parse_value (fuel : nat) (s : jsstring) : option (value * jsstring) :=
  match fuel with
  | O => None
  | S fuel' =>
      match skip_ws s with
      | [] => None
      | c :: s' =>
          if c =? 34 then
            match parse_chars s' with
            | Some (str, rest) => Some (JStr str, rest)
            | None => None
            end
          else if c =? 91 then
            match skip_ws s' with
            | d :: rest =>
                if d =? 93 then Some (JArr [], rest)
                else match parse_elements fuel' s' with
                     | Some (l, rest') => Some (JArr l, rest')
                     | None => None
                     end
            | [] => None
            end
          else if c =? 123 then
            match skip_ws s' with
            | d :: rest =>
                if d =? 125 then Some (JObj [], rest)
                else match parse_members fuel' s' with
                     | Some (m, rest') => Some (JObj m, rest')
                     | None => None
                     end
            | [] => None
            end
          else if c =? 110 then parse_literal (u16 "null") JNull (c :: s')
          else if c =? 116 then parse_literal (u16 "true") (JBool true) (c :: s')
          else if c =? 102 then parse_literal (u16 "false") (JBool false) (c :: s')
          else if (c =? 45) || is_digit c then
            match lex_number (c :: s') with
            | Some (lit, rest) => Some (JNum lit, rest)
            | None => None
            end
          else None
      end
  end

with parse_elements (fuel : nat) (s : jsstring) : option (list value * jsstring) :=
  match fuel with
  | O => None
  | S fuel' =>
      match parse_value fuel' s with
      | None => None
      | Some (v, rest) =>
          match skip_ws rest with
          | d :: rest' =>
              if d =? 93 then Some ([v], rest')
              else if d =? 44 then
                match parse_elements fuel' rest' with
                | Some (l, rest'') => Some (v :: l, rest'')
                | None => None
                end
              else None
          | [] => None
          end
      end
  end

with parse_members (fuel : nat) (s : jsstring) :
    option (list (jsstring * value) * jsstring) :=
  match fuel with
  | O => None
  | S fuel' =>
      match skip_ws s with
      | q :: s1 =>
          if q =? 34 then
            match parse_chars s1 with
            | None => None
            | Some (k, s2) =>
                match skip_ws s2 with
                | colon :: s3 =>
                    if colon =? 58 then
                      match parse_value fuel' s3 with
                      | None => None
                      | Some (v, s4) =>
                          match skip_ws s4 with
                          | d :: s5 =>
                              if d =? 125 then Some ([(k, v)], s5)
                              else if d =? 44 then
                                match parse_members fuel' s5 with
                                | Some (m, s6) => Some ((k, v) :: m, s6)
                                | None => None
                                end
                              else None
                          | [] => None
                          end
                      end
                    else None
                | [] => None
                end
            end
          else None
      | [] => None
      end
  end.

(** A bound on the fuel the text of a value needs: one unit per value and
    one per element or member read. *)
Fixpoint jsize (j : plain) : nat :=
  match j with
  | JArr l => S (list_sum (map (fun v => S (jsize v)) l))
  | JObj m => S (list_sum (map (fun kv => S (jsize (snd kv))) m))
  | _ => 1%nat
  end.

Definition elements_size (l : list plain) : nat :=
  list_sum (map (fun v => S (jsize v)) l).

Definition members_size (m : list (jsstring * plain)) : nat :=
  list_sum (map (fun kv => S (jsize (snd kv))) m).

(** The text of one member of an object. *)
Definition member_text (kv : jsstring * plain) : jsstring :=
  quote (fst kv) ++ 58 :: stringify (snd kv).

(** [JSON.parse(text)]: one value, then nothing but white space; [None]
    stands for the SyntaxError. *)
Definition parse (text : jsstring) : option value :=
  match parse_value (S (length text)) text with
  | Some (v, rest) =>
      match skip_ws rest with
      | [] => Some v
      | _ :: _ => None
      end
  | None => None
  end.

End JSON.

Import JSON.

(** ** App.tsx: persistence of the record list *)

Module Persistence.

(** A record as the JSON object [JSON.stringify] writes for it: the members
    in the order [handleCreate] builds them, [aiSummary] left out while it
    is undefined. *)
Definition video_json {num} (v : Video) : json num :=
  JObj ([ (u16 "title", JStr (title v));
          (u16 "url", JStr (url v));
          (u16 "tags", JArr (map JStr (tags v)));
          (u16 "category", JStr (category_value (category v)));
          (u16 "status", JStr (status_value (status v)));
          (u16 "notes", JStr (notes v));
          (u16 "id", JStr (id v));
          (u16 "addedAt", JStr (addedAt v)) ]
        ++ match aiSummary v with
           | Some s => [ (u16 "aiSummary", JStr s) ]
           | None => []
           end).

Definition videos_json {num} (vs : list Video) : json num := JArr (map video_json vs).

(** [localStorage.setItem('video-vault-data', JSON.stringify(videos))]: the
    text written under the key. *)
Definition persist (vs : list Video) : jsstring := stringify (videos_json vs).

(** Reading a parsed value at the type [Video[]]; [None] when the value is
    not a list of records of that type. *)
Definition as_string (j : value) : option jsstring :=
  match j with JStr s => Some s | _ => None end.

Definition as_strings (j : value) : option (list jsstring) :=
  match j with JArr l => mapM as_string l | _ => None end.

Definition field {A} (k : string) (read : value -> option A)
    (m : list (jsstring * value)) : option A :=
  obj_get (u16 k) m ≫= read.

Definition as_video (j : value) : option Video :=
  match j with
  | JObj m =>
      i ← field "id" as_string m;
      t ← field "title" as_string m;
      u ← field "url" as_string m;
      g ← field "tags" as_strings m;
      c ← field "category" (fun x => as_string x ≫= category_of_value) m;
      s ← field "status" (fun x => as_string x ≫= status_of_value) m;
      a ← field "addedAt" as_string m;
      n ← field "notes" as_string m;
      y ← match obj_get (u16 "aiSummary") m with
          | None => Some None
          | Some x => Some <$> as_string x
          end;
      Some (mkVideo i t u g c s a n y)
  | _ => None
  end.

Definition as_videos (j : value) : option (list Video) :=
  match j with JArr l => mapM as_video l | _ => None end.

(** The initializer of the [videos] state: [saved] is what
    [localStorage.getItem] answers ([None] for null).  The result is [None]
    only when the stored text parses to something that is not a [Video[]]. *)
Definition initial_videos (saved : option jsstring) : option (list Video) :=
  match saved with
  | None => Some []
  | Some text =>
      if truthy_string text
      then match parse text with
           | Some j => as_videos j
           | None => Some []
           end
      else Some []
  end.

End Persistence.

(** ** services/geminiService.ts *)

Module Service.

Inductive exn :=
| Error (message : jsstring)
| SyntaxError
| TypeError.

Inductive res (A : Type) :=
| Ok (a : A)
| Throw (e : exn).
Arguments Ok {A} a.
Arguments Throw {A} e.

Definition bind {A B} (r : res A) (k : A -> res B) : res B :=
  match r with
  | Ok a => k a
  | Throw e => Throw e
  end.

(** [try { body } catch (e) { handler(e) }] *)
Definition try_catch {A} (body : res A) (handler : exn -> res A) : res A :=
  match body with
  | Ok a => Ok a
  | Throw e => handler e
  end.

#[global] Instance res_bind : MBind res := fun A B k r => bind r k.

(** The entry of the compact index sent with a search. *)
Record IndexEntry := mkIndexEntry {
  ix_id : jsstring;
  ix_title : jsstring;
  ix_tags : list jsstring;
  ix_category : VideoCategory;
  ix_notes : jsstring;
  ix_status : VideoStatus
}.

(** What a call hands to the endpoint: the operation and the data its prompt
    is built from. *)
Inductive request :=
| SummaryRequest (video : Video) (extraContext : option jsstring)
| SuggestionsRequest (title : jsstring)
| MetadataRequest (url : jsstring) (categories : list VideoCategory)
| SearchRequest (query : jsstring) (videoIndex : list IndexEntry).

(** [response.text], undefined when the endpoint sent no text. *)
Record response := mkResponse { text : option jsstring }.

(** [ai.models.generateContent]: it answers or it throws. *)
Definition client := request -> res response.

(** [!text] *)
Definition no_text (t : option jsstring) : bool :=
  match t with
  | Some s => negb (truthy_string s)
  | None => true
  end.

Definition text_or_empty (t : option jsstring) : jsstring :=
  match t with Some s => s | None => [] end.

(** The message of the error [extractVideoMetadata] throws from its catch. *)
Definition extraction_failed_message : jsstring :=
  [26080; 27861; 33258; 21160; 25552; 21462; 35270; 39057; 20449; 24687;
   65292; 35831; 25163; 21160; 36755; 20837; 12290].

Section Operations.

Variable num : Type.
(** Truthiness of a number value, and [JSON.parse]. *)
Variable num_truthy : num -> bool.
Variable JSON_parse : jsstring -> option (json num).

Definition parse_or_throw (t : jsstring) : res (json num) :=
  match JSON_parse t with
  | Some j => Ok j
  | None => Throw SyntaxError
  end.

Definition truthy (j : json num) : bool :=
  match j with
  | JNull => false
  | JBool b => b
  | JNum n => num_truthy n
  | JStr s => truthy_string s
  | JArr _ => true
  | JObj _ => true
  end.

(** [data.k] for the names read below ([title], [category], [tags],
    [notes], [ids]): a TypeError on null, the member of an object,
    undefined on every other value. *)
Definition prop (data : json num) (k : string) : res (option (json num)) :=
  match data with
  | JNull => Throw TypeError
  | JObj m => Ok (obj_get (u16 k) m)
  | _ => Ok None
  end.

(** [x || d] *)
Definition or_default (x : option (json num)) (d : json num) : json num :=
  match x with
  | Some j => if truthy j then j else d
  | None => d
  end.

Definition generateVideoSummary (ai : option client) (video : Video)
    (extraContext : option jsstring) : res jsstring :=
  match ai with
  | None => Throw (Error (u16 "API Key is missing. Please check your configuration."))
  | Some call =>
      try_catch
        (r ← call (SummaryRequest video extraContext);
         Ok (if no_text (text r)
             then u16 "Sorry, I couldn't generate a summary at this time."
             else text_or_empty (text r)))
        (fun _ => Ok (u16 "Error connecting to AI service. Please try again later."))
  end.

(** [{ tags: [], category: '' }] *)
Definition no_suggestions : json num :=
  JObj [ (u16 "tags", JArr []); (u16 "category", JStr []) ].

Definition generateSuggestions (ai : option client) (title : jsstring) :
    res (json num) :=
  match ai with
  | None => Ok no_suggestions
  | Some call =>
      try_catch
        (r ← call (SuggestionsRequest title);
         if no_text (text r) then Ok no_suggestions
         else parse_or_throw (text_or_empty (text r)))
        (fun _ => Ok no_suggestions)
  end.

Record Metadata := mkMetadata {
  md_title : json num;
  md_category : VideoCategory;
  md_tags : json num;
  md_notes : json num
}.

(** [text.replace(/```json/g, '').replace(/```/g, '').trim()] *)
Definition sanitize (t : jsstring) : jsstring :=
  trim (remove_all (u16 "```") (remove_all (u16 "```json") t)).

(** [Object.values(VideoCategory).includes(x) ? x : VideoCategory.OTHER] *)
Definition valid_category (x : option (json num)) : VideoCategory :=
  match x with
  | Some (JStr s) =>
      match category_of_value s with
      | Some c => c
      | None => OTHER
      end
  | _ => OTHER
  end.

Definition extractVideoMetadata (ai : option client) (url : jsstring) :
    res Metadata :=
  match ai with
  | None => Throw (Error (u16 "API Key missing"))
  | Some call =>
      try_catch
        (r ← call (MetadataRequest url category_values);
         if no_text (text r) then Throw (Error (u16 "No response from AI"))
         else
           data ← parse_or_throw (sanitize (text_or_empty (text r)));
           t ← prop data "title";
           c ← prop data "category";
           g ← prop data "tags";
           n ← prop data "notes";
           Ok (mkMetadata (or_default t (JStr [])) (valid_category c)
                          (or_default g (JArr [])) (or_default n (JStr []))))
        (fun _ => Throw (Error extraction_failed_message))
  end.

Definition index_entry (v : Video) : IndexEntry :=
  mkIndexEntry (id v) (title v) (tags v) (category v) (notes v) (status v).

Definition semanticSearchVideos (ai : option client) (query : jsstring)
    (videos : list Video) : res (json num) :=
  match ai with
  | None => Ok (JArr [])
  | Some call =>
      match videos with
      | [] => Ok (JArr [])
      | _ :: _ =>
          try_catch
            (r ← call (SearchRequest query (map index_entry videos));
             if no_text (text r) then Ok (JArr [])
             else
               result ← parse_or_throw (text_or_empty (text r));
               ids ← prop result "ids";
               Ok (or_default ids (JArr [])))
            (fun _ => Ok (JArr []))
      end
  end.

End Operations.

Arguments mkMetadata {num}.
Arguments md_title {num}.
Arguments md_category {num}.
Arguments md_tags {num}.
Arguments md_notes {num}.



End Service.

(** ** The view as the specification words it *)

Module Spec.

Section Standard.

Variable toLowerCase : jsstring -> jsstring.

(** "[s] contains [q]": the code units of [q] occur in [s] as one run. *)
Definition contains (s q : jsstring) : Prop :=
  exists before after, s = before ++ q ++ after.

(** "[s] contains the query, case-insensitive": the query occurs in [s]
    once both are lower-cased. *)
Definition contains_ci (s query : jsstring) : Prop :=
  contains (toLowerCase s) (toLowerCase query).

(** "(title contains query OR any tag contains query) AND (status filter
    is all OR equals record status) AND (category filter is all OR equals
    record category)" *)
Definition standard_predicate (query : jsstring) (sf : or_all VideoStatus)
    (cf : or_all VideoCategory) (v : Video) : Prop :=
  (contains_ci (title v) query \/ exists t, t ∈ tags v /\ contains_ci t query)
  /\ (sf = ALL \/ sf = Only (status v))
  /\ (cf = ALL \/ cf = Only (category v)).

End Standard.

(** The same predicate read on the text itself, for text in ASCII: two code
    units are the same letter up to case when they are equal or are a
    capital letter and its small letter. *)
Definition same_up_to_case (a b : N) : Prop :=
  a = b \/ (65 <= a <= 90 /\ b = a + 32) \/ (65 <= b <= 90 /\ a = b + 32).

Definition ascii (s : jsstring) : Prop := Forall (fun c => c < 128) s.

(** "[s] contains the query, case-insensitive": a run of [s] is the query up
    to the case of its letters. *)
Definition contains_up_to_case (s query : jsstring) : Prop :=
  exists before run after,
    s = before ++ run ++ after /\ Forall2 same_up_to_case run query.

Definition standard_predicate_on_text (query : jsstring) (sf : or_all VideoStatus)
    (cf : or_all VideoCategory) (v : Video) : Prop :=
  (contains_up_to_case (title v) query
   \/ exists t, t ∈ tags v /\ contains_up_to_case t query)
  /\ (sf = ALL \/ sf = Only (status v))
  /\ (cf = ALL \/ cf = Only (category v)).

(** What is left of the predicate while AI mode waits for its first search. *)
Definition filters_predicate (sf : or_all VideoStatus)
    (cf : or_all VideoCategory) (v : Video) : Prop :=
  (sf = ALL \/ sf = Only (status v)) /\ (cf = ALL \/ cf = Only (category v)).

(** A response "wrapped in code-fence markers": an opening fence (with or
    without the [json] tag), the text on lines of its own, a closing fence.
    [w1], [w2], [w3] are the line breaks and blanks around the text. *)
Definition fenced (opening w1 w2 w3 text : jsstring) : jsstring :=
  opening ++ w1 ++ text ++ w2 ++ u16 "```" ++ w3.

Definition is_opening_fence (opening : jsstring) : Prop :=
  opening = u16 "```json" \/ opening = u16 "```".

Definition blank (w : jsstring) : Prop := Forall (fun c => is_white_space c = true) w.

Section Generation.

Import Service.

Variable num : Type.
Variable JSON_parse : jsstring -> option (json num).

(** "The endpoint call fails" *)
Definition call_fails (r : res response) : Prop := exists e, r = Throw e.

(** "The response is empty": no text, or the empty text. *)
Definition response_empty (r : res response) : Prop :=
  exists t, r = Ok (mkResponse t) /\ no_text t = true.

(** "The response is unparsable", after the preparation [prepare] the
    operation applies to the text. *)
Definition response_unparsable (prepare : jsstring -> jsstring) (r : res response) : Prop :=
  exists t, r = Ok (mkResponse (Some t)) /\ t <> [] /\ JSON_parse (prepare t) = None.

(** The response parses, to the value [data]. *)
Definition response_parses (prepare : jsstring -> jsstring) (r : res response)
    (data : json num) : Prop :=
  exists t, r = Ok (mkResponse (Some t)) /\ t <> [] /\ JSON_parse (prepare t) = Some data.

(** The member [k] of a parsed object, if it has one. *)
Definition member (data : json num) (k : string) : option (json num) :=
  match data with
  | JObj m => obj_get (u16 k) m
  | _ => None
  end.

End Generation.

End Spec.

(** ** Sample data *)

Module Samples.

Definition sample (i t : string) (g : list jsstring) (c : VideoCategory)
    (s : VideoStatus) : Video :=
  mkVideo (u16 i) (u16 t) (u16 "https://example.org/v") g c s
          (u16 "2024-01-01T00:00:00.000Z") [] None.

Definition va : Video := sample "a" "Learn Rocq" [u16 "Proofs"] PROGRAMMING UNWATCHED.
Definition vb : Video := sample "b" "Morning yoga" [u16 "stretch"] FITNESS WATCHING.
Definition vc : Video := sample "c" "Type theory" [u16 "rocq"; u16 "logic"] SCIENCE COMPLETED.

(** A second record carrying the id of [va]. *)
Definition va' : Video := sample "a" "Shadow" [] OTHER TRASH.

Definition form : VideoFormData :=
  mkVideoFormData (u16 "New title") (u16 "https://example.org/n") [u16 "x"]
                  DESIGN ARCHIVED (u16 "note").

Definition state (vs : list Video) (e : option Video) : App.State :=
  App.mkState vs e None [] ALL ALL false [] false.

(** An endpoint that answers every request with the same text, and one
    that fails every request. *)
Definition answering (t : jsstring) : Service.client :=
  fun _ => Service.Ok (Service.mkResponse (Some t)).

Definition failing : Service.client :=
  fun _ => Service.Throw (Service.Error (u16 "network error")).

(** A string literal of JSON text: the characters between two quotes. *)
Definition quoted (s : string) : jsstring := 34 :: u16 s ++ [34].

Definition metadata_text : jsstring :=
  u16 "{ " ++ quoted "title" ++ u16 ": " ++ quoted "Learn Rocq" ++ u16 ", "
    ++ quoted "category" ++ u16 ": " ++ quoted "cooking" ++ u16 ", "
    ++ quoted "tags" ++ u16 ": [" ++ quoted "proofs" ++ u16 "] }".

Definition ids_text : jsstring :=
  u16 "{" ++ quoted "ids" ++ u16 ": [" ++ quoted "b" ++ u16 ", " ++ quoted "a" ++ u16 "]}".

Definition line_break : jsstring := [10].

End Samples.

(** ** App.tsx: the screen around the store *)

Module Ui.

Import App.

Definition set_searchQuery (q : jsstring) (st : State) : State :=
  mkState (videos st) (editingVideo st) (detailVideo st) q
          (statusFilter st) (categoryFilter st) (isAiSearchMode st)
          (aiMatchedIds st) (aiSearchPerformed st).

Definition set_statusFilter (f : or_all VideoStatus) (st : State) : State :=
  mkState (videos st) (editingVideo st) (detailVideo st) (searchQuery st)
          f (categoryFilter st) (isAiSearchMode st)
          (aiMatchedIds st) (aiSearchPerformed st).

Definition set_categoryFilter (f : or_all VideoCategory) (st : State) : State :=
  mkState (videos st) (editingVideo st) (detailVideo st) (searchQuery st)
          (statusFilter st) f (isAiSearchMode st)
          (aiMatchedIds st) (aiSearchPerformed st).

Definition set_isAiSearchMode (b : bool) (st : State) : State :=
  mkState (videos st) (editingVideo st) (detailVideo st) (searchQuery st)
          (statusFilter st) (categoryFilter st) b
          (aiMatchedIds st) (aiSearchPerformed st).

Definition set_aiMatchedIds (ids : list jsstring) (st : State) : State :=
  mkState (videos st) (editingVideo st) (detailVideo st) (searchQuery st)
          (statusFilter st) (categoryFilter st) (isAiSearchMode st)
          ids (aiSearchPerformed st).

Definition set_aiSearchPerformed (b : bool) (st : State) : State :=
  mkState (videos st) (editingVideo st) (detailVideo st) (searchQuery st)
          (statusFilter st) (categoryFilter st) (isAiSearchMode st)
          (aiMatchedIds st) b.

(** The component state with its two display flags. *)
Record Screen := mkScreen {
  state : State;
  isFormOpen : bool;
  isAiSearching : bool
}.

Definition on_state (f : State -> State) (s : Screen) : Screen :=
  mkScreen (f (state s)) (isFormOpen s) (isAiSearching s).

Definition set_isFormOpen (b : bool) (s : Screen) : Screen :=
  mkScreen (state s) b (isAiSearching s).

Definition set_isAiSearching (b : bool) (s : Screen) : Screen :=
  mkScreen (state s) (isFormOpen s) b.

Definition openCreateModal (s : Screen) : Screen :=
  set_isFormOpen true (on_state (set_editingVideo None) s).

Definition openEditModal (video : Video) (s : Screen) : Screen :=
  set_isFormOpen true (on_state (set_editingVideo (Some video)) s).

(** [onSubmit={editingVideo ? handleUpdate : handleCreate}] followed by
    [onClose], as the form's [handleSubmit] calls them. *)
Definition onSubmit (uuid now : jsstring) (data : VideoFormData) (st : State) : State :=
  match editingVideo st with
  | Some _ => handleUpdate data st
  | None => handleCreate uuid now data st
  end.

Definition handleSubmit (uuid now : jsstring) (data : VideoFormData) (s : Screen) : Screen :=
  set_isFormOpen false (on_state (onSubmit uuid now data) s).

(** The effect on [isAiSearchMode]: leaving AI mode clears the AI result and
    the query. *)
Definition resetAiSearch (st : State) : State :=
  if isAiSearchMode st then st
  else
    let st' := set_aiSearchPerformed false (set_aiMatchedIds [] st) in
    if truthy_string (searchQuery st') then set_searchQuery [] st' else st'.

(** The AI button: [setIsAiSearchMode(!isAiSearchMode)], then the effect. *)
Definition toggleAiSearchMode (st : State) : State :=
  resetAiSearch (set_isAiSearchMode (negb (isAiSearchMode st)) st).

(** [handleAiSearch] up to its [await]: nothing happens on a blank query;
    otherwise the flags are raised and the search is issued on the query
    and the record list of that moment. *)
Definition handleAiSearch_begin (s : Screen) : option Screen :=
  if truthy_string (trim (searchQuery (state s)))
  then Some (set_isAiSearching true (on_state (set_aiSearchPerformed true) s))
  else None.

(** [handleAiSearch] after its [await], on the screen of that later moment:
    the ids are stored, or the failure is announced; the second component
    tells whether [alert] was called. *)
Definition handleAiSearch_settle (r : Service.res (list jsstring)) (s : Screen) :
    Screen * bool :=
  match r with
  | Service.Ok ids => (set_isAiSearching false (on_state (set_aiMatchedIds ids) s), false)
  | Service.Throw _ => (set_isAiSearching false s, true)
  end.

(** The statistics tiles. *)
Record Stats := mkStats { total : nat; unwatched : nat; completed : nat }.

Definition stats (vs : list Video) : Stats :=
  mkStats (length vs)
          (length (List.filter (fun v => status_eqb (status v) UNWATCHED) vs))
          (length (List.filter (fun v => status_eqb (status v) COMPLETED) vs)).

(** What the user and the environment can do to the screen, as the markup
    wires the handlers: a search is started from AI mode only; a settled
    search delivers its ids whenever it arrives; [crypto.randomUUID] answers
    an identifier no record carries. *)
Inductive step : Screen -> Screen -> Prop :=
| step_open_create s : step s (openCreateModal s)
| step_open_edit s video : step s (openEditModal video s)
| step_close_form s : step s (set_isFormOpen false s)
| step_submit s uuid now data :
    uuid ∉ (id <$> videos (state s)) ->
    step s (handleSubmit uuid now data s)
| step_delete s confirmed i : step s (on_state (handleDelete confirmed i) s)
| step_open_detail s d : step s (on_state (set_detailVideo d) s)
| step_detail_update s updated : step s (on_state (handleDetailUpdate updated) s)
| step_type_query s q : step s (on_state (set_searchQuery q) s)
| step_status_filter s f : step s (on_state (set_statusFilter f) s)
| step_category_filter s f : step s (on_state (set_categoryFilter f) s)
| step_toggle s : step s (on_state toggleAiSearchMode s)
| step_search_begin s s' :
    isAiSearchMode (state s) = true ->
    handleAiSearch_begin s = Some s' ->
    step s s'
| step_search_settle s r : step s (fst (handleAiSearch_settle r s)).

Inductive reachable (s0 : Screen) : Screen -> Prop :=
| reachable_here : reachable s0 s0
| reachable_step s s' : reachable s0 s -> step s s' -> reachable s0 s'.

End Ui.

(** ** Reading a parsed value at a declared type *)

Module Read.

Definition string_of {num} (j : json num) : option jsstring :=
  match j with JStr s => Some s | _ => None end.

(** An array of strings; [None] on anything else. *)
Definition strings_of {num} (j : json num) : option (list jsstring) :=
  match j with JArr l => mapM string_of l | _ => None end.

End Read.

(** ** App.tsx: [handleAiSearch] with its call *)

Module AiSearch.

Import App Ui Service Read.

Section WithClient.

Variable num : Type.
Variable num_truthy : num -> bool.
Variable JSON_parse : jsstring -> option (json num).
Variable ai : option client.

(** What the awaited call hands back, read at the declared type
    [string[]]; [None] when the value is not an array of strings. *)
Definition search_result (query : jsstring) (videos : list Video) :
    option (res (list jsstring)) :=
  match semanticSearchVideos num num_truthy JSON_parse ai query videos with
  | Ok j => Ok <$> strings_of j
  | Throw e => Some (Throw e)
  end.

(** [handleAiSearch] when nothing else happens during the call. *)
Definition handleAiSearch (s : Screen) : option (Screen * bool) :=
  match handleAiSearch_begin s with
  | None => Some (s, false)
  | Some s' =>
      r ← search_result (searchQuery (state s)) (videos (state s));
      Some (handleAiSearch_settle r s')
  end.

End WithClient.

End AiSearch.

(** ** components/VideoFormModal.tsx *)

Module Form.

Import Service Read.

Definition DEFAULT_FORM : VideoFormData :=
  mkVideoFormData [] [] [] OTHER UNWATCHED [].

Record FormState := mkForm {
  formData : VideoFormData;
  tagInput : jsstring;
  isSuggesting : bool;
  isAnalyzingUrl : bool
}.

Definition set_formData (d : VideoFormData) (f : FormState) : FormState :=
  mkForm d (tagInput f) (isSuggesting f) (isAnalyzingUrl f).

Definition set_tags (g : list jsstring) (d : VideoFormData) : VideoFormData :=
  mkVideoFormData (form_title d) (form_url d) g (form_category d) (form_status d)
                  (form_notes d).

(** The effect on [initialData] and [isOpen]. *)
Definition form_of (v : Video) : VideoFormData :=
  mkVideoFormData (title v) (url v) (tags v) (category v) (status v) (notes v).

Definition resetForm (initialData : option Video) (f : FormState) : FormState :=
  mkForm (match initialData with Some v => form_of v | None => DEFAULT_FORM end)
         [] (isSuggesting f) (isAnalyzingUrl f).

Definition addTag (f : FormState) : FormState :=
  let t := trim (tagInput f) in
  if truthy_string t && negb (existsb (str_eqb t) (form_tags (formData f)))
  then mkForm (set_tags (form_tags (formData f) ++ [t]) (formData f)) []
              (isSuggesting f) (isAnalyzingUrl f)
  else f.

Definition handleKeyDown (key : jsstring) (f : FormState) : FormState :=
  if str_eqb key (u16 "Enter") then addTag f else f.

Definition removeTag (tagToRemove : jsstring) (f : FormState) : FormState :=
  set_formData
    (set_tags (List.filter (fun t => negb (str_eqb t tagToRemove)) (form_tags (formData f)))
              (formData f)) f.

(** [Array.from(new Set(l))]: the first occurrence of each string, in order;
    [seen] holds the strings already in the set. *)
Fixpoint set_order (seen l : list jsstring) : list jsstring :=
  match l with
  | [] => []
  | x :: l' =>
      if existsb (str_eqb x) seen then set_order seen l'
      else x :: set_order (x :: seen) l'
  end.

Definition array_from_set (l : list jsstring) : list jsstring := set_order [] l.

(** What [handleAISuggest] writes to the form.  Its cast [as VideoCategory]
    checks nothing, so the category written is whatever string was
    suggested.  [category_written] is [None] while the form data are of the
    type [VideoFormData]; it is [Some s] when the category written is the
    string [s], the value of no member, the form then holding
    [{ ...data_written, category: s }]. *)
Record Suggested := mkSuggested {
  data_written : VideoFormData;
  category_written : option jsstring
}.

(** The string the form holds as its category. *)
Definition category_held (r : Suggested) : jsstring :=
  match category_written r with
  | Some s => s
  | None => category_value (form_category (data_written r))
  end.

Section WithClient.

Variable num : Type.
Variable num_truthy : num -> bool.
Variable JSON_parse : jsstring -> option (json num).
Variable ai : option client.

(** [suggestions.category as VideoCategory || prev.category]: the string
    written to the form.  The cast is erased at run time, so a truthy
    suggestion is taken as it is, member of the enumeration or not.  The
    suggestion is read at its declared type [string]: the result is [None]
    when it is truthy and is no string. *)
Definition suggested_category (prev : VideoCategory) (x : option (json num)) :
    option jsstring :=
  match x with
  | None => Some (category_value prev)
  | Some j =>
      if truthy num num_truthy j
      then string_of j
      else Some (category_value prev)
  end.

(** [{ ...d, category: c }] for a string [c]. *)
Definition write_category (c : jsstring) (d : VideoFormData) : Suggested :=
  match category_of_value c with
  | Some k =>
      mkSuggested (mkVideoFormData (form_title d) (form_url d) (form_tags d) k
                     (form_status d) (form_notes d)) None
  | None => mkSuggested d (Some c)
  end.

(** The state update of [handleAISuggest], on the form of the moment the
    call settles.  The suggestions are read at the declared type
    [{ tags: string[], category: string }]; the result is [None] when they
    are not of that type. *)
Definition apply_suggestions (suggestions : json num) (prev : VideoFormData) :
    option Suggested :=
  match suggestions with
  | JObj m =>
      g ← obj_get (u16 "tags") m ≫= strings_of;
      c ← suggested_category (form_category prev) (obj_get (u16 "category") m);
      Some (write_category c
              (mkVideoFormData (form_title prev) (form_url prev)
                 (array_from_set (form_tags prev ++ g)) (form_category prev)
                 (form_status prev) (form_notes prev)))
  | _ => None
  end.

(** The second component is the category string the form holds when that
    string is the value of no member ([category_written]); it is [None]
    while the form data are of the type [VideoFormData]. *)
Definition handleAISuggest (f : FormState) : option (FormState * option jsstring) :=
  if truthy_string (form_title (formData f))
  then
    match generateSuggestions num JSON_parse ai (form_title (formData f)) with
    | Ok suggestions =>
        r ← apply_suggestions suggestions (formData f);
        Some (mkForm (data_written r) (tagInput f) false (isAnalyzingUrl f),
              category_written r)
    | Throw _ =>
        Some (mkForm (formData f) (tagInput f) false (isAnalyzingUrl f), None)
    end
  else Some (f, None).

(** The state update of [handleUrlAnalyze]; the metadata are read at the
    declared type [{ title: string, tags: string[], notes: string }]. *)
Definition apply_metadata (metadata : Metadata num) (prev : VideoFormData) :
    option VideoFormData :=
  t ← string_of (md_title metadata);
  g ← strings_of (md_tags metadata);
  n ← string_of (md_notes metadata);
  Some (mkVideoFormData t (form_url prev) g (md_category metadata) (form_status prev) n).

(** The second component tells whether [alert] was called. *)
Definition handleUrlAnalyze (f : FormState) : option (FormState * bool) :=
  if truthy_string (form_url (formData f))
  then
    match extractVideoMetadata num num_truthy JSON_parse ai (form_url (formData f)) with
    | Ok metadata =>
        d ← apply_metadata metadata (formData f);
        Some (mkForm d (tagInput f) (isSuggesting f) false, false)
    | Throw _ => Some (mkForm (formData f) (tagInput f) (isSuggesting f) false, true)
    end
  else Some (f, false).

End WithClient.

End Form.

(** ** components/DetailModal.tsx, components/VideoCard.tsx *)

Module Detail.

Import App Service.

Record DetailState := mkDetail {
  isGenerating : bool;
  extraContext : jsstring;
  showContextInput : bool
}.

(** [{ ...video, aiSummary: summary }] *)
Definition with_summary (video : Video) (summary : jsstring) : Video :=
  mkVideo (id video) (title video) (url video) (tags video) (category video)
          (status video) (addedAt video) (notes video) (Some summary).

(** [handleGenerateSummary] with [onUpdate] bound to [handleDetailUpdate];
    [video] is the record the dialog was opened on.  The last component
    tells whether [alert] was called. *)
Definition handleGenerateSummary (ai : option client) (video : Video)
    (d : DetailState) (st : State) : State * DetailState * bool :=
  match generateVideoSummary ai video (Some (extraContext d)) with
  | Ok summary =>
      (handleDetailUpdate (with_summary video summary) st,
       mkDetail false (extraContext d) false, false)
  | Throw _ => (st, mkDetail false (extraContext d) (showContextInput d), true)
  end.

(** [video.aiSummary && ...]: the card marks a record that has a summary. *)
Definition shows_summary_mark (video : Video) : bool :=
  match aiSummary video with
  | Some s => truthy_string s
  | None => false
  end.

End Detail.

(** ** components/Badge.tsx *)

Module Badge.

Inductive BadgeType := StatusBadge | CategoryBadge | TagBadge.

Definition base_styles : jsstring :=
  u16 "px-2.5 py-0.5 rounded-full text-xs font-medium border ".

Definition default_status_styles : jsstring :=
  u16 "bg-gray-50 text-gray-700 border-gray-200".

(** The [switch] on the value of a status badge. *)
Definition status_styles (value : jsstring) : jsstring :=
  if str_eqb value (status_value UNWATCHED)
  then u16 "bg-blue-50 text-blue-700 border-blue-200"
  else if str_eqb value (status_value WATCHING)
  then u16 "bg-yellow-50 text-yellow-700 border-yellow-200"
  else if str_eqb value (status_value COMPLETED)
  then u16 "bg-green-50 text-green-700 border-green-200"
  else if str_eqb value (status_value ARCHIVED)
  then u16 "bg-purple-50 text-purple-700 border-purple-200"
  else if str_eqb value (status_value TRASH)
  then u16 "bg-red-50 text-red-700 border-red-200"
  else default_status_styles.

Definition styles (type : BadgeType) (value : jsstring) : jsstring :=
  base_styles ++
  match type with
  | StatusBadge => status_styles value
  | CategoryBadge => u16 "bg-indigo-50 text-indigo-700 border-indigo-200"
  | TagBadge => u16 "bg-slate-100 text-slate-600 border-slate-200"
  end.

(** The [className] of the rendered [span]. *)
Definition className_of (type : BadgeType) (value className : jsstring) : jsstring :=
  styles type value ++ u16 " " ++ className.

End Badge.

(** ** More sample data *)

Module MoreSamples.

Import Samples.

Definition screen (vs : list Video) (e : option Video) : Ui.Screen :=
  Ui.mkScreen (state vs e) false false.

Definition ai_state (vs : list Video) (q : jsstring) (ids : list jsstring)
    (performed : bool) : App.State :=
  App.mkState vs None None q (Only WATCHING) ALL true ids performed.

Definition typing (input : string) (g : list jsstring) : Form.FormState :=
  Form.mkForm (mkVideoFormData (u16 "Learn Rocq") (u16 "https://example.org/v") g
                 PROGRAMMING UNWATCHED [])
              (u16 input) false false.

Definition suggestions_text : jsstring :=
  u16 "{" ++ quoted "tags" ++ u16 ": [" ++ quoted "proofs" ++ u16 ", " ++ quoted "coq"
    ++ u16 "], " ++ quoted "category" ++ u16 ": " ++ [34; 34] ++ u16 "}".

(** Suggestions whose category is the value of no member. *)
Definition cooking_suggestions_text : jsstring :=
  u16 "{" ++ quoted "tags" ++ u16 ": [" ++ quoted "proofs" ++ u16 "], "
    ++ quoted "category" ++ u16 ": " ++ quoted "cooking" ++ u16 "}".

End MoreSamples.

(** * Properties *)

(** ** Strings *)

Module JSFacts.

Lemma str_eqb_eq (a b : jsstring) : str_eqb a b = true <-> a = b.
Proof.
  revert b; induction a as [|x a IH]; intros [|y b]; simpl; try (split; congruence).
  rewrite andb_true_iff, N.eqb_eq, IH. split; [intros [-> ->]|intros [= -> ->]]; auto.
Qed.

Lemma str_eqb_refl (a : jsstring) : str_eqb a a = true.
Proof. now apply str_eqb_eq. Qed.

Lemma str_eqb_neq (a b : jsstring) : str_eqb a b = false <-> a <> b.
Proof.
  rewrite <- str_eqb_eq. destruct (str_eqb a b); split; congruence.
Qed.

Lemma str_eqb_decide (a b : jsstring) : str_eqb a b = bool_decide (a = b).
Proof.
  case_bool_decide as H.
  - now apply str_eqb_eq.
  - now apply str_eqb_neq.
Qed.

Lemma starts_with_nil (s : jsstring) : starts_with [] s = true.
Proof. now destruct s. Qed.

Lemma includes_nil (s : jsstring) : includes s [] = true.
Proof. destruct s; simpl; reflexivity. Qed.

Lemma starts_with_prefix (p s : jsstring) :
  starts_with p s = true <-> exists rest, s = p ++ rest.
Proof.
  revert s; induction p as [|a p IH]; intros s.
  - rewrite starts_with_nil. split; [intros _; now exists s|reflexivity].
  - destruct s as [|b s]; simpl.
    + split; [discriminate|intros [rest H]; discriminate H].
    + rewrite andb_true_iff, N.eqb_eq, IH. split.
      * intros [-> [rest ->]]. now exists rest.
      * intros [rest [= -> ->]]. split; [reflexivity|now exists rest].
Qed.

(** [includes] finds exactly the contiguous runs. *)
Lemma includes_run (s q : jsstring) :
  includes s q = true <-> exists before after, s = before ++ q ++ after.
Proof.
  induction s as [|c s IH]; simpl.
  - rewrite orb_false_r, starts_with_prefix. split.
    + intros [rest H]. exists [], rest. exact H.
    + intros (before & after & H). destruct before as [|x before]; [|discriminate H].
      now exists after.
  - rewrite orb_true_iff, starts_with_prefix, IH. split.
    + intros [[rest H]|(before & after & H)].
      * exists [], rest. exact H.
      * exists (c :: before), after. simpl. now rewrite H.
    + intros (before & after & H). destruct before as [|x before].
      * left. now exists after.
      * right. injection H as _ H. now exists before, after.
Qed.

Lemma ascii_toLowerCase_unit (a b : N) :
  (if (65 <=? a) && (a <=? 90) then a + 32 else a)
  = (if (65 <=? b) && (b <=? 90) then b + 32 else b)
  <-> a = b \/ (65 <= a <= 90 /\ b = a + 32) \/ (65 <= b <= 90 /\ a = b + 32).
Proof.
  destruct (N.leb_spec 65 a), (N.leb_spec a 90), (N.leb_spec 65 b), (N.leb_spec b 90);
    simpl; lia.
Qed.

(** Two strings have the same lower-casing when they agree up to the case
    of their letters, position by position. *)
Lemma ascii_toLowerCase_eq (s t : jsstring) :
  ascii_toLowerCase s = ascii_toLowerCase t
  <-> Forall2 (fun a b => a = b \/ (65 <= a <= 90 /\ b = a + 32)
                          \/ (65 <= b <= 90 /\ a = b + 32)) s t.
Proof.
  unfold ascii_toLowerCase. revert t; induction s as [|a s IH]; intros [|b t]; simpl.
  - split; [constructor|reflexivity].
  - split; [discriminate|intros H; inversion H].
  - split; [discriminate|intros H; inversion H].
  - split.
    + intros [= H1 H2]. constructor; [now apply ascii_toLowerCase_unit|now apply IH].
    + intros H. inversion H as [|? ? ? ? H1 H2]; subst. f_equal.
      * now apply ascii_toLowerCase_unit.
      * now apply IH.
Qed.

(** A run of the lower-cased string is the lower-casing of a run. *)
Lemma ascii_toLowerCase_run (s q : jsstring) :
  (exists before after,
      ascii_toLowerCase s = before ++ ascii_toLowerCase q ++ after)
  <-> exists before run after,
        s = before ++ run ++ after /\ ascii_toLowerCase run = ascii_toLowerCase q.
Proof.
  unfold ascii_toLowerCase. split.
  - intros (before & after & H).
    apply List.map_eq_app in H as (b' & rest & -> & Hb & H).
    apply List.map_eq_app in H as (run & a' & -> & Hr & Ha).
    now exists b', run, a'.
  - intros (before & run & after & -> & H).
    eexists _, _. rewrite !List.map_app, H. reflexivity.
Qed.

End JSFacts.

Import JSFacts.

(** ** The record store and the view *)

Module AppFacts.

Import App.

#[local] Close Scope N_scope.

(** *** The map behind the AI view *)

Lemma matchedMap_from (vs : list Video) (m : gmap jsstring Video) (i : jsstring) :
  foldl (fun m v => <[id v := v]> m) m vs !! i =
  match last (filter (fun v => id v = i) vs) with
  | Some v => Some v
  | None => m !! i
  end.
Proof.
  revert m; induction vs as [|v vs IH]; intros m; simpl; [reflexivity|].
  rewrite IH, filter_cons. case_decide as Hv.
  - rewrite last_cons.
    destruct (last (filter (fun v => id v = i) vs)); [reflexivity|].
    subst i. apply lookup_insert_eq.
  - destruct (last (filter (fun v => id v = i) vs)); [reflexivity|].
    now apply lookup_insert_ne.
Qed.

Lemma matchedMap_lookup (vs : list Video) (i : jsstring) :
  matchedMap vs !! i = last (filter (fun v => id v = i) vs).
Proof.
  unfold matchedMap. rewrite matchedMap_from, lookup_empty.
  now destruct (last _).
Qed.

Lemma matchedMap_Some (vs : list Video) (i : jsstring) (v : Video) :
  matchedMap vs !! i = Some v -> v ∈ vs /\ id v = i.
Proof.
  rewrite matchedMap_lookup. intros L.
  apply last_Some_elem_of, list_elem_of_filter in L. tauto.
Qed.

Lemma matchedMap_is_Some (vs : list Video) (i : jsstring) :
  is_Some (matchedMap vs !! i) <-> i ∈ (id <$> vs).
Proof.
  rewrite matchedMap_lookup. split.
  - intros [v L]. apply last_Some_elem_of, list_elem_of_filter in L as [<- Hin].
    now apply list_elem_of_fmap_2.
  - intros Hin. apply list_elem_of_fmap in Hin as (v & -> & Hin).
    destruct (last (filter (fun w => id w = id v) vs)) eqn:L; [eauto|].
    apply last_None in L.
    assert (v ∈ filter (fun w => id w = id v) vs) as Hv
      by (apply list_elem_of_filter; auto).
    rewrite L in Hv. inversion Hv.
Qed.

Lemma filter_unique_id (vs : list Video) (v : Video) :
  NoDup (id <$> vs) -> v ∈ vs -> filter (fun w => id w = id v) vs = [v].
Proof.
  induction vs as [|x vs IH]; intros Hnd Hv; [inversion Hv|].
  rewrite fmap_cons in Hnd. apply NoDup_cons in Hnd as [Hx Hnd].
  rewrite filter_cons. apply elem_of_cons in Hv as [->|Hv].
  - rewrite decide_True by reflexivity. f_equal.
    destruct (filter (fun w => id w = id x) vs) as [|y ys] eqn:F; [reflexivity|].
    exfalso. apply Hx.
    assert (y ∈ filter (fun w => id w = id x) vs) as Hy by (rewrite F; constructor).
    apply list_elem_of_filter in Hy as [<- Hy]. now apply list_elem_of_fmap_2.
  - rewrite decide_False; [now apply IH|].
    intros E. apply Hx. rewrite E. now apply list_elem_of_fmap_2.
Qed.

Lemma omap_cons_eq {A B} (f : A -> option B) (x : A) (l : list A) :
  omap f (x :: l) = match f x with Some y => y :: omap f l | None => omap f l end.
Proof. reflexivity. Qed.

Section View.

Variable toLowerCase : jsstring -> jsstring.

Abbreviation visible := (filteredVideos toLowerCase).

Lemma ai_view_unfold vs q sf cf ids :
  visible vs q sf cf true ids true = omap (fun i => matchedMap vs !! i) ids.
Proof. reflexivity. Qed.

(** C1. In AI mode, once a search has been performed, the visible list is
    read off the AI id list: for each id in the order of that list, the
    store record carrying that id (the last one, should several share
    it), an id carried by no record contributing nothing.  So the ids of
    the visible records are the AI ids that occur in the store, in
    order; every visible record is a store record whose id is in the
    list; the text query and the two filters play no part; and when the
    store's ids are unique every store record whose id is in the list is
    visible. *)
Theorem ai_view_follows_id_list (vs : list Video) (ids : list jsstring)
    (q : jsstring) (sf : or_all VideoStatus) (cf : or_all VideoCategory) :
  visible vs q sf cf true ids true
    = omap (fun i => last (filter (fun v => id v = i) vs)) ids
  /\ id <$> visible vs q sf cf true ids true
    = filter (fun i => i ∈ (id <$> vs)) ids
  /\ (forall v, v ∈ visible vs q sf cf true ids true -> v ∈ vs /\ id v ∈ ids)
  /\ (forall q' sf' cf',
        visible vs q' sf' cf' true ids true = visible vs q sf cf true ids true)
  /\ (NoDup (id <$> vs) ->
      forall v, v ∈ vs -> id v ∈ ids -> v ∈ visible vs q sf cf true ids true).
Proof.
  rewrite ai_view_unfold. split; [|split; [|split; [|split]]]; [| | |reflexivity|].
  - induction ids as [|i ids IH]; [reflexivity|].
    now rewrite !omap_cons_eq, matchedMap_lookup, IH.
  - induction ids as [|i ids IH]; [reflexivity|].
    rewrite omap_cons_eq, filter_cons. case_decide as Hi.
    + apply matchedMap_is_Some in Hi as [v Hv]. rewrite Hv, fmap_cons.
      apply matchedMap_Some in Hv as [_ ->]. now rewrite IH.
    + destruct (matchedMap vs !! i) eqn:E; [|exact IH].
      exfalso. apply Hi, matchedMap_is_Some. eauto.
  - intros v Hv. apply list_elem_of_omap in Hv as (i & Hi & Hv).
    apply matchedMap_Some in Hv as [Hin <-]. now split.
  - intros Hnd v Hv Hi. apply list_elem_of_omap. exists (id v). split; [exact Hi|].
    now rewrite matchedMap_lookup, filter_unique_id.
Qed.

(** The example of the specification: ids [b, a] over records a, b, c. *)
Example ai_view_b_a :
  let r i := mkVideo (u16 i) (u16 "t") (u16 "u") [] OTHER UNWATCHED (u16 "d") [] None in
  visible [r "a"; r "b"; r "c"] (u16 "zzz") (Only TRASH) (Only FITNESS) true
          [u16 "b"; u16 "missing"; u16 "a"] true
  = [r "b"; r "a"].
Proof. vm_compute. reflexivity. Qed.

(** *** AI mode, after a search *)

Lemma ai_view_count (vs : list Video) (ids : list jsstring) (i : jsstring) (v : Video) :
  matchedMap vs !! i = Some v ->
  length (filter (fun x => x = v) (omap (fun j => matchedMap vs !! j) ids))
  = length (filter (fun j => j = i) ids).
Proof.
  intros Hv. pose proof (matchedMap_Some _ _ _ Hv) as [_ Hid].
  induction ids as [|j ids IH]; [reflexivity|].
  rewrite omap_cons_eq, (filter_cons _ j). case_decide as Hj.
  - subst j. rewrite Hv, filter_cons. rewrite decide_True by reflexivity.
    simpl. now rewrite IH.
  - destruct (matchedMap vs !! j) as [w|] eqn:E; [|exact IH].
    rewrite filter_cons, decide_False; [exact IH|].
    intros ->. apply matchedMap_Some in E as [_ E]. congruence.
Qed.

Lemma NoDup_count_le_1 {A} `{EqDecision A} (l : list A) (x : A) :
  NoDup l -> length (filter (fun y => y = x) l) <= 1.
Proof.
  induction 1 as [|y l Hy _ IH]; simpl; [lia|].
  rewrite filter_cons. case_decide as E; [|exact IH].
  subst y. destruct (filter (fun y => y = x) l) as [|z zs] eqn:F; simpl; [lia|].
  exfalso. apply Hy.
  assert (z ∈ filter (fun y => y = x) l) as Hz by (rewrite F; constructor).
  apply list_elem_of_filter in Hz as [-> Hz]. exact Hz.
Qed.

(** C10. The AI view does not deduplicate the id list: when the id of a
    stored record occurs k times in the list, the record shown for that
    id occurs k times in the visible list; with k at least two the visible
    list repeats a store record. *)
Theorem ai_view_keeps_repeats (vs : list Video) (ids : list jsstring)
    (q : jsstring) (sf : or_all VideoStatus) (cf : or_all VideoCategory)
    (i : jsstring) :
  i ∈ (id <$> vs) ->
  exists v, v ∈ vs /\ id v = i
    /\ length (filter (fun x => x = v) (visible vs q sf cf true ids true))
       = length (filter (fun j => j = i) ids)
    /\ (2 <= length (filter (fun j => j = i) ids) ->
        ~ NoDup (visible vs q sf cf true ids true)).
Proof.
  intros Hi. apply matchedMap_is_Some in Hi as [v Hv].
  exists v. pose proof (matchedMap_Some _ _ _ Hv) as [Hin Hid].
  rewrite ai_view_unfold. repeat split; auto.
  - now apply ai_view_count.
  - intros Hk Hnd. apply (NoDup_count_le_1 _ v) in Hnd.
    rewrite (ai_view_count _ _ _ _ Hv) in Hnd. lia.
Qed.

(** *** AI mode, before the first search *)

Lemma matchesStatus_spec (sf : or_all VideoStatus) (v : Video) :
  matchesStatus sf v = true <-> sf = ALL \/ sf = Only (status v).
Proof.
  destruct sf as [|s]; simpl; [tauto|].
  unfold status_eqb. rewrite bool_decide_eq_true.
  split; [intros ->; auto|intros [[=]|[= ->]]; reflexivity].
Qed.

Lemma matchesCategory_spec (cf : or_all VideoCategory) (v : Video) :
  matchesCategory cf v = true <-> cf = ALL \/ cf = Only (category v).
Proof.
  destruct cf as [|c]; simpl; [tauto|].
  unfold category_eqb. rewrite bool_decide_eq_true.
  split; [intros ->; auto|intros [[=]|[= ->]]; reflexivity].
Qed.

Lemma filter_true {A} (l : list A) : List.filter (fun _ => true) l = l.
Proof. induction l; simpl; congruence. Qed.

(** C2, as the code has it.  In AI mode, before a search has been
    performed, only the text query is bypassed: the visible list is the
    record list filtered by the status and category filters, order kept;
    it is the full record list when both filters are "all". *)
Theorem ai_view_before_search (vs : list Video) (ids : list jsstring)
    (q : jsstring) (sf : or_all VideoStatus) (cf : or_all VideoCategory) :
  visible vs q sf cf true ids false
    = List.filter (fun v => matchesStatus sf v && matchesCategory cf v) vs
  /\ (forall v, v ∈ visible vs q sf cf true ids false
                <-> v ∈ vs /\ Spec.filters_predicate sf cf v)
  /\ visible vs q ALL ALL true ids false = vs
  /\ (forall q', visible vs q' sf cf true ids false = visible vs q sf cf true ids false).
Proof.
  split; [reflexivity|]. split; [|split; [apply filter_true|reflexivity]].
  intros v. change (visible vs q sf cf true ids false)
    with (List.filter (fun v => matchesStatus sf v && matchesCategory cf v) vs).
  rewrite list_elem_of_In, filter_In, andb_true_iff, <- list_elem_of_In.
  now rewrite matchesStatus_spec, matchesCategory_spec.
Qed.

(** *** Standard mode *)

Lemma matchesSearch_spec (q : jsstring) (v : Video) :
  matchesSearch toLowerCase false q v = true
  <-> Spec.contains_ci toLowerCase (title v) q
      \/ exists t, t ∈ tags v /\ Spec.contains_ci toLowerCase t q.
Proof.
  unfold matchesSearch, Spec.contains_ci, Spec.contains.
  rewrite orb_true_iff, existsb_exists, includes_run.
  split; (intros [H|(t & Ht & H)]; [left; exact H|right; exists t]);
    (split; [apply list_elem_of_In; exact Ht|apply includes_run; exact H]).
Qed.

(** On text in ASCII, where [toLowerCase] lower-cases the letters A to Z and
    nothing else, containing the lower-cased query is containing the query
    up to the case of its letters. *)
Lemma contains_ci_on_text (s q : jsstring) :
  (forall x, Spec.ascii x -> toLowerCase x = ascii_toLowerCase x) ->
  Spec.ascii s -> Spec.ascii q ->
  Spec.contains_ci toLowerCase s q <-> Spec.contains_up_to_case s q.
Proof.
  intros Hlower Hs Hq. unfold Spec.contains_ci, Spec.contains, Spec.contains_up_to_case.
  rewrite (Hlower s Hs), (Hlower q Hq), ascii_toLowerCase_run.
  split; intros (before & run & after & E & H); exists before, run, after;
    (split; [exact E|]); now apply ascii_toLowerCase_eq.
Qed.

Lemma standard_predicate_text (q : jsstring) (sf : or_all VideoStatus)
    (cf : or_all VideoCategory) (v : Video) :
  (forall x, Spec.ascii x -> toLowerCase x = ascii_toLowerCase x) ->
  Spec.ascii q -> Spec.ascii (title v) -> Forall Spec.ascii (tags v) ->
  Spec.standard_predicate toLowerCase q sf cf v
  <-> Spec.standard_predicate_on_text q sf cf v.
Proof.
  intros Hlower Hq Ht Hg.
  unfold Spec.standard_predicate, Spec.standard_predicate_on_text.
  rewrite (contains_ci_on_text _ _ Hlower Ht Hq).
  assert ((exists t, t ∈ tags v /\ Spec.contains_ci toLowerCase t q)
          <-> exists t, t ∈ tags v /\ Spec.contains_up_to_case t q) as ->; [|reflexivity].
  rewrite Forall_forall in Hg.
  split; intros (t & Hin & H); exists t; (split; [exact Hin|]);
    now apply (contains_ci_on_text _ _ Hlower (Hg t Hin) Hq).
Qed.

Lemma standard_passes_spec (q : jsstring) (sf : or_all VideoStatus)
    (cf : or_all VideoCategory) (v : Video) :
  matchesSearch toLowerCase false q v && matchesStatus sf v && matchesCategory cf v = true
  <-> Spec.standard_predicate toLowerCase q sf cf v.
Proof.
  unfold Spec.standard_predicate.
  rewrite !andb_true_iff, matchesSearch_spec, matchesStatus_spec, matchesCategory_spec.
  tauto.
Qed.

Lemma standard_view_unfold vs q sf cf ids performed :
  visible vs q sf cf false ids performed
  = List.filter (fun video => matchesSearch toLowerCase false q video
                              && matchesStatus sf video
                              && matchesCategory cf video) vs.
Proof. reflexivity. Qed.

Lemma filter_andb {A} (f g : A -> bool) (l : list A) :
  List.filter (fun x => f x && g x) l = List.filter g (List.filter f l).
Proof.
  induction l as [|x l IH]; simpl; [reflexivity|].
  destruct (f x); simpl; [destruct (g x)|]; now rewrite IH.
Qed.

(** C3. In standard mode a record is visible exactly when it is in the
    store and (its title, or one of its tags, contains the query without
    regard to case) and (the status filter is "all" or is the record's
    status) and (the category filter is "all" or is the record's
    category); the visible list is the store filtered by that predicate,
    order kept.  With no query and no category filter, a status filter
    leaves exactly the records of that status; a query together with a
    category filter leaves the records passing both.  "Contains without
    regard to case" is: the lower-cased query is a run of the lower-cased
    text; and for a query, a title and tags in ASCII, which [toLowerCase]
    lower-cases letter by letter, it is: a run of the text is the query up
    to the case of its letters. *)
Theorem standard_view (vs : list Video) (ids : list jsstring) (performed : bool)
    (q : jsstring) (sf : or_all VideoStatus) (cf : or_all VideoCategory) :
  toLowerCase [] = [] ->
  (forall v, v ∈ visible vs q sf cf false ids performed
             <-> v ∈ vs /\ Spec.standard_predicate toLowerCase q sf cf v)
  /\ (exists p, visible vs q sf cf false ids performed = List.filter p vs
                /\ forall v, p v = true <-> Spec.standard_predicate toLowerCase q sf cf v)
  /\ (forall s, visible vs [] (Only s) ALL false ids performed
                = List.filter (fun v => bool_decide (status v = s)) vs)
  /\ (forall c, visible vs q ALL (Only c) false ids performed
                = List.filter (fun v => bool_decide (category v = c))
                    (visible vs q ALL ALL false ids performed)
                /\ forall v, v ∈ visible vs q ALL (Only c) false ids performed
                     <-> v ∈ visible vs q ALL ALL false ids performed
                         /\ v ∈ visible vs [] ALL (Only c) false ids performed)
  /\ ((forall x, Spec.ascii x -> toLowerCase x = ascii_toLowerCase x) ->
      Spec.ascii q ->
      forall v, Spec.ascii (title v) -> Forall Spec.ascii (tags v) ->
        (v ∈ visible vs q sf cf false ids performed
         <-> v ∈ vs /\ Spec.standard_predicate_on_text q sf cf v)).
Proof.
  intros Hlower.
  assert (forall q sf cf v, v ∈ visible vs q sf cf false ids performed
            <-> v ∈ vs /\ Spec.standard_predicate toLowerCase q sf cf v) as Hmem.
  { intros q0 sf0 cf0 v. rewrite standard_view_unfold.
    rewrite list_elem_of_In, filter_In. cbv beta.
    now rewrite standard_passes_spec, <- list_elem_of_In. }
  assert (forall v, matchesSearch toLowerCase false [] v = true) as Hempty.
  { intros v. unfold matchesSearch. now rewrite Hlower, includes_nil. }
  split; [apply Hmem|]. split; [|split; [|split]].
  - eexists. split; [reflexivity|]. intros v. apply standard_passes_spec.
  - intros s. rewrite standard_view_unfold. apply filter_ext. intros v.
    rewrite Hempty. simpl. now rewrite andb_true_r.
  - intros c. split.
    + rewrite !standard_view_unfold, <- filter_andb. apply filter_ext.
      intros v. simpl. rewrite !andb_true_r. reflexivity.
    + intros v. rewrite !Hmem. unfold Spec.standard_predicate.
      assert (forall x, Spec.contains_ci toLowerCase x []) as Hnil.
      { intros x. unfold Spec.contains_ci. rewrite Hlower. now exists [], (toLowerCase x). }
      intuition.
  - intros Hascii Hq v Ht Hg. rewrite Hmem.
    now rewrite (standard_predicate_text q sf cf v Hascii Hq Ht Hg).
Qed.

End View.

(** *** The handlers *)

Lemma lookup_map {A B} (f : A -> B) (l : list A) (n : nat) (x : A) :
  l !! n = Some x -> map f l !! n = Some (f x).
Proof.
  revert n; induction l as [|y l IH]; intros [|n]; simpl; try discriminate.
  - now intros [= ->].
  - apply IH.
Qed.

(** C4. With a record under edit, the update keeps the length of the list
    and, position by position, turns a record carrying the edited id into
    one with the submitted title, url, tags, category, status and notes and
    the same id and addedAt (and aiSummary), and leaves any other record as
    it is. *)
Theorem handleUpdate_frame (st : State) (e : Video) (data : VideoFormData) :
  editingVideo st = Some e ->
  length (videos (handleUpdate data st)) = length (videos st)
  /\ forall n v, videos st !! n = Some v ->
       exists v', videos (handleUpdate data st) !! n = Some v'
         /\ id v' = id v /\ addedAt v' = addedAt v
         /\ (id v = id e ->
               title v' = form_title data /\ url v' = form_url data
               /\ tags v' = form_tags data /\ category v' = form_category data
               /\ status v' = form_status data /\ notes v' = form_notes data
               /\ aiSummary v' = aiSummary v)
         /\ (id v <> id e -> v' = v).
Proof.
  intros He. unfold handleUpdate. rewrite He. simpl. split.
  - apply length_map.
  - intros n v Hn. eexists. split; [apply lookup_map, Hn|].
    destruct (str_eqb (id v) (id e)) eqn:E.
    + apply str_eqb_eq in E. simpl. repeat split; auto. congruence.
    + apply str_eqb_neq in E. repeat split; auto; contradiction.
Qed.

Lemma handleUpdate_no_edit (st : State) (data : VideoFormData) :
  editingVideo st = None -> handleUpdate data st = st.
Proof. intros He. unfold handleUpdate. now rewrite He. Qed.

Lemma filter_all {A} (f : A -> bool) (l : list A) :
  (forall x, x ∈ l -> f x = true) -> List.filter f l = l.
Proof.
  induction l as [|x l IH]; intros H; simpl; [reflexivity|].
  rewrite (H x) by constructor. f_equal. apply IH. intros y Hy. apply H. now constructor.
Qed.

(** C5. In a list whose identifiers are unique, a confirmed deletion by an
    identifier of the list removes the one record carrying it: the list
    splits around that record and the result is what was before it
    followed by what was after it. *)
Theorem handleDelete_removes_one (st : State) (i : jsstring) :
  NoDup (id <$> videos st) ->
  i ∈ (id <$> videos st) ->
  exists l1 v l2,
    videos st = l1 ++ v :: l2 /\ id v = i
    /\ videos (handleDelete true i st) = l1 ++ l2
    /\ length (videos (handleDelete true i st)) + 1 = length (videos st).
Proof.
  intros Hnd Hi. apply list_elem_of_fmap in Hi as (v & -> & Hv).
  apply list_elem_of_split in Hv as (l1 & l2 & E).
  exists l1, v, l2. rewrite E in Hnd |- *.
  rewrite fmap_app, fmap_cons in Hnd.
  apply NoDup_app in Hnd as (_ & H1 & H2). apply NoDup_cons in H2 as [H2 _].
  assert (videos (handleDelete true (id v) st) = l1 ++ l2) as R.
  { change (videos (handleDelete true (id v) st))
      with (List.filter (fun w => negb (str_eqb (id w) (id v))) (videos st)).
    rewrite E, List.filter_app. simpl. rewrite str_eqb_refl. simpl. f_equal.
    - apply filter_all. intros x Hx. apply negb_true_iff, str_eqb_neq.
      intros Hid. apply (H1 (id x)); [now apply list_elem_of_fmap_2|].
      rewrite Hid. constructor.
    - apply filter_all. intros x Hx. apply negb_true_iff, str_eqb_neq.
      intros Hid. apply H2. rewrite <- Hid. now apply list_elem_of_fmap_2. }
  repeat split; auto. rewrite R, !length_app. simpl. lia.
Qed.

Lemma handleDelete_declined (st : State) (i : jsstring) : handleDelete false i st = st.
Proof. reflexivity. Qed.

(** C6. Creation puts one new record in front of the list and leaves the
    records already there behind it, unchanged and in order; the new
    record's id and addedAt are the identifier and the clock reading the
    store drew, whatever the form data, and its other fields are the
    form's. *)
Theorem handleCreate_prepends (st : State) (uuid now : jsstring) (data : VideoFormData) :
  exists v,
    videos (handleCreate uuid now data st) = v :: videos st
    /\ id v = uuid /\ addedAt v = now
    /\ title v = form_title data /\ url v = form_url data
    /\ tags v = form_tags data /\ category v = form_category data
    /\ status v = form_status data /\ notes v = form_notes data
    /\ aiSummary v = None
    /\ forall data',
         id <$> head (videos (handleCreate uuid now data' st)) = Some (id v)
         /\ addedAt <$> head (videos (handleCreate uuid now data' st)) = Some (addedAt v).
Proof. exists (newVideo uuid now data). repeat split. Qed.

End AppFacts.

(** ** The JSON codec *)

Module JSONFacts.

(** *** String literals *)

Lemma hex_value_digit (d : N) : d < 16 -> hex_value (hex_digit d) = Some d.
Proof.
  intros Hd. unfold hex_digit, hex_value.
  destruct (N.ltb_spec d 10).
  - replace ((48 <=? 48 + d) && (48 + d <=? 57)) with true
      by (symmetry; apply andb_true_iff; split; apply N.leb_le; lia).
    f_equal. lia.
  - replace ((48 <=? 87 + d) && (87 + d <=? 57)) with false
      by (symmetry; apply andb_false_iff; right; apply N.leb_gt; lia).
    replace ((97 <=? 87 + d) && (87 + d <=? 102)) with true
      by (symmetry; apply andb_true_iff; split; apply N.leb_le; lia).
    f_equal. lia.
Qed.

Lemma hex4_value_escape (c : N) :
  c < 65536 ->
  hex4_value (hex_digit (c / 4096 mod 16)) (hex_digit (c / 256 mod 16))
             (hex_digit (c / 16 mod 16)) (hex_digit (c mod 16)) = Some c.
Proof.
  intros Hc. unfold hex4_value.
  rewrite !hex_value_digit by (apply N.mod_lt; discriminate).
  f_equal.
  assert (c / 16 / 16 = c / 256) as D1 by (now rewrite N.Div0.div_div).
  assert (c / 256 / 16 = c / 4096) as D2 by (now rewrite N.Div0.div_div).
  pose proof (N.div_mod c 16 ltac:(discriminate)) as E0.
  pose proof (N.div_mod (c / 16) 16 ltac:(discriminate)) as E1.
  pose proof (N.div_mod (c / 256) 16 ltac:(discriminate)) as E2.
  rewrite D1 in E1. rewrite D2 in E2.
  assert (c / 4096 < 16) as Hq by (apply N.Div0.div_lt_upper_bound; exact Hc).
  rewrite (N.mod_small (c / 4096) 16 Hq).
  lia.
Qed.

Lemma parse_chars_unicode_escape (c : N) (t : jsstring) :
  c < 65536 ->
  parse_chars (unicode_escape c ++ t) = cons_result c (parse_chars t).
Proof.
  intros Hc. unfold unicode_escape.
  change (parse_chars (_ ++ t)) with
    (match hex4_value (hex_digit (c / 4096 mod 16)) (hex_digit (c / 256 mod 16))
                      (hex_digit (c / 16 mod 16)) (hex_digit (c mod 16)) with
     | Some u => cons_result u (parse_chars t)
     | None => None
     end).
  now rewrite hex4_value_escape.
Qed.

Lemma parse_chars_plain (c : N) (t : jsstring) :
  c <> 34 -> c <> 92 -> 32 <= c ->
  parse_chars (c :: t) = cons_result c (parse_chars t).
Proof.
  intros H1 H2 H3. simpl.
  destruct (N.eqb_spec c 34); [contradiction|].
  destruct (N.eqb_spec c 92); [contradiction|].
  destruct (N.ltb_spec c 32); [lia|]. reflexivity.
Qed.

Lemma surrogate_bounds (c : N) :
  is_high_surrogate c || is_low_surrogate c = true -> 32 <= c < 65536.
Proof.
  unfold is_high_surrogate, is_low_surrogate.
  rewrite orb_true_iff, !andb_true_iff, !N.leb_le. lia.
Qed.

Lemma parse_chars_quote_unit (c : N) (t : jsstring) :
  parse_chars (quote_unit c ++ t) = cons_result c (parse_chars t).
Proof.
  unfold quote_unit.
  destruct (N.eqb_spec c 8) as [->|]; [reflexivity|].
  destruct (N.eqb_spec c 9) as [->|]; [reflexivity|].
  destruct (N.eqb_spec c 10) as [->|]; [reflexivity|].
  destruct (N.eqb_spec c 12) as [->|]; [reflexivity|].
  destruct (N.eqb_spec c 13) as [->|]; [reflexivity|].
  destruct (N.eqb_spec c 34) as [->|]; [reflexivity|].
  destruct (N.eqb_spec c 92) as [->|]; [reflexivity|].
  destruct ((c <? 32) || is_high_surrogate c || is_low_surrogate c) eqn:E.
  - apply parse_chars_unicode_escape.
    rewrite <- orb_assoc in E. apply orb_true_iff in E as [E|E].
    + apply N.ltb_lt in E. lia.
    + now apply surrogate_bounds in E.
  - apply orb_false_iff in E as [E _]. apply orb_false_iff in E as [E _].
    apply N.ltb_ge in E. now apply parse_chars_plain.
Qed.

Lemma parse_chars_pair (c d : N) (t : jsstring) :
  is_high_surrogate c && is_low_surrogate d = true ->
  parse_chars (c :: d :: t) = cons_result c (cons_result d (parse_chars t)).
Proof.
  intros H. apply andb_true_iff in H as [Hc Hd].
  assert (32 <= c < 65536 /\ 55296 <= c) as [Bc Bc'].
  { split; [apply surrogate_bounds; now rewrite Hc|].
    unfold is_high_surrogate in Hc. apply andb_true_iff in Hc as [Hc _].
    now apply N.leb_le. }
  assert (32 <= d < 65536 /\ 55296 <= d) as [Bd Bd'].
  { split; [apply surrogate_bounds; rewrite Hd; apply orb_true_r|].
    unfold is_low_surrogate in Hd. apply andb_true_iff in Hd as [Hd _].
    apply N.leb_le in Hd. lia. }
  rewrite parse_chars_plain by lia. now rewrite parse_chars_plain by lia.
Qed.

Lemma parse_chars_quote_body (s rest : jsstring) :
  parse_chars (quote_body s ++ 34 :: rest) = Some (s, rest).
Proof.
  assert (forall n s, (length s <= n)%nat ->
            parse_chars (quote_body s ++ 34 :: rest) = Some (s, rest)) as H.
  { clear s. induction n as [|n IH]; intros [|c [|d s]] Hlen; simpl in Hlen;
      try lia; try reflexivity.
    - change (quote_body [c]) with (quote_unit c).
      now rewrite parse_chars_quote_unit.
    - change (quote_body (c :: d :: s)) with
        (if is_high_surrogate c && is_low_surrogate d
         then c :: d :: quote_body s
         else quote_unit c ++ quote_body (d :: s)).
      destruct (is_high_surrogate c && is_low_surrogate d) eqn:E.
      + change ((c :: d :: quote_body s) ++ 34 :: rest)
          with (c :: d :: (quote_body s ++ 34 :: rest)).
        rewrite parse_chars_pair by exact E.
        rewrite IH by (simpl; lia). reflexivity.
      + rewrite <- app_assoc, parse_chars_quote_unit.
        rewrite IH by (simpl; lia). reflexivity. }
  apply (H (length s)). lia.
Qed.

(** *** Values *)

Lemma parse_value_string (f : nat) (s : jsstring) :
  parse_value (S f) (34 :: s) =
  match parse_chars s with
  | Some (str, rest) => Some (JStr str, rest)
  | None => None
  end.
Proof. reflexivity. Qed.

Lemma parse_value_array (f : nat) (s : jsstring) :
  parse_value (S f) (91 :: s) =
  match skip_ws s with
  | d :: rest =>
      if d =? 93 then Some (JArr [], rest)
      else match parse_elements f s with
           | Some (l, rest') => Some (JArr l, rest')
           | None => None
           end
  | [] => None
  end.
Proof. reflexivity. Qed.

Lemma parse_value_object (f : nat) (s : jsstring) :
  parse_value (S f) (123 :: s) =
  match skip_ws s with
  | d :: rest =>
      if d =? 125 then Some (JObj [], rest)
      else match parse_members f s with
           | Some (m, rest') => Some (JObj m, rest')
           | None => None
           end
  | [] => None
  end.
Proof. reflexivity. Qed.

Lemma parse_elements_step (f : nat) (s : jsstring) :
  parse_elements (S f) s =
  match parse_value f s with
  | None => None
  | Some (v, rest) =>
      match skip_ws rest with
      | d :: rest' =>
          if d =? 93 then Some ([v], rest')
          else if d =? 44 then
            match parse_elements f rest' with
            | Some (l, rest'') => Some (v :: l, rest'')
            | None => None
            end
          else None
      | [] => None
      end
  end.
Proof. reflexivity. Qed.

Lemma parse_members_step (f : nat) (s1 : jsstring) :
  parse_members (S f) (34 :: s1) =
  match parse_chars s1 with
  | None => None
  | Some (k, s2) =>
      match skip_ws s2 with
      | colon :: s3 =>
          if colon =? 58 then
            match parse_value f s3 with
            | None => None
            | Some (v, s4) =>
                match skip_ws s4 with
                | d :: s5 =>
                    if d =? 125 then Some ([(k, v)], s5)
                    else if d =? 44 then
                      match parse_members f s5 with
                      | Some (m, s6) => Some ((k, v) :: m, s6)
                      | None => None
                      end
                    else None
                | [] => None
                end
            end
          else None
      | [] => None
      end
  end.
Proof. reflexivity. Qed.

(** The text of a value begins with a character that is neither white
    space nor a closing bracket. *)
Lemma stringify_head (j : plain) :
  exists c t, stringify j = c :: t
    /\ is_json_ws c = false /\ (c =? 93) = false /\ (c =? 125) = false.
Proof.
  destruct j as [|[]|[]|s|l|m]; eexists _, _; (split; [reflexivity|]); auto.
Qed.

Lemma skip_ws_stringify (j : plain) (rest : jsstring) :
  skip_ws (stringify j ++ rest) = stringify j ++ rest.
Proof.
  destruct (stringify_head j) as (c & t & -> & Hc & _). simpl. now rewrite Hc.
Qed.

Lemma join_comma_cons2 (p q : jsstring) (r : list jsstring) :
  join_comma (p :: q :: r) = p ++ 44 :: join_comma (q :: r).
Proof. reflexivity. Qed.

Lemma jsize_pos (j : plain) : (1 <= jsize j)%nat.
Proof. destruct j; simpl; lia. Qed.

Lemma jsize_array (l : list plain) : jsize (JArr l) = S (elements_size l).
Proof. reflexivity. Qed.

Lemma jsize_object (m : list (jsstring * plain)) : jsize (JObj m) = S (members_size m).
Proof. reflexivity. Qed.

Lemma elements_size_cons (v : plain) (l : list plain) :
  elements_size (v :: l) = S (jsize v + elements_size l).
Proof. reflexivity. Qed.

Lemma members_size_cons (kv : jsstring * plain) (m : list (jsstring * plain)) :
  members_size (kv :: m) = S (jsize (snd kv) + members_size m).
Proof. reflexivity. Qed.

Lemma parse_stringify_fuel (fuel : nat) :
  (forall j rest, (jsize j <= fuel)%nat ->
     parse_value fuel (stringify j ++ rest) = Some (lift j, rest))
  /\ (forall v l rest, (elements_size (v :: l) <= fuel)%nat ->
        parse_elements fuel (join_comma (map stringify (v :: l)) ++ 93 :: rest)
        = Some (map lift (v :: l), rest))
  /\ (forall kv m rest, (members_size (kv :: m) <= fuel)%nat ->
        parse_members fuel (join_comma (map member_text (kv :: m)) ++ 125 :: rest)
        = Some (map lift_member (kv :: m), rest)).
Proof.
  induction fuel as [|f (IHv & IHe & IHm)].
  { split; [|split].
    - intros j rest H. pose proof (jsize_pos j). lia.
    - intros v l rest H. rewrite elements_size_cons in H. lia.
    - intros kv m rest H. rewrite members_size_cons in H. lia. }
  split; [|split].
  - intros j rest Hsz. destruct j as [|[]|[]|s|l|m]; try reflexivity.
    + (* string *)
      change (stringify (JStr s) ++ rest) with (34 :: (quote_body s ++ [34]) ++ rest).
      rewrite parse_value_string, <- app_assoc.
      change ([34] ++ rest) with (34 :: rest).
      now rewrite parse_chars_quote_body.
    + (* array *)
      change (stringify (JArr l) ++ rest)
        with (91 :: (join_comma (map stringify l) ++ [93]) ++ rest).
      rewrite parse_value_array, <- app_assoc.
      change ([93] ++ rest) with (93 :: rest).
      destruct l as [|v l]; [reflexivity|].
      rewrite jsize_array in Hsz. rewrite IHe by lia.
      destruct l as [|w l].
      * change (join_comma (map stringify [v])) with (stringify v).
        destruct (stringify_head v) as (c & t & -> & Hc & Hc' & _).
        simpl. now rewrite Hc, Hc'.
      * rewrite map_cons, (map_cons _ w), join_comma_cons2, <- app_assoc.
        destruct (stringify_head v) as (c & t & -> & Hc & Hc' & _).
        simpl. now rewrite Hc, Hc'.
    + (* object *)
      change (stringify (JObj m) ++ rest)
        with (123 :: (join_comma (map member_text m) ++ [125]) ++ rest).
      rewrite parse_value_object, <- app_assoc.
      change ([125] ++ rest) with (125 :: rest).
      destruct m as [|kv m]; [reflexivity|].
      rewrite jsize_object in Hsz. rewrite IHm by lia.
      destruct m as [|kw m]; reflexivity.
  - intros v l rest Hsz. rewrite parse_elements_step.
    rewrite elements_size_cons in Hsz.
    destruct l as [|w l].
    + change (join_comma (map stringify [v])) with (stringify v).
      rewrite IHv by lia. reflexivity.
    + rewrite map_cons, (map_cons _ w), join_comma_cons2, <- app_assoc.
      rewrite IHv by lia.
      change ((44 :: join_comma (stringify w :: map stringify l)) ++ 93 :: rest)
        with (44 :: (join_comma (map stringify (w :: l)) ++ 93 :: rest)).
      change (skip_ws (44 :: ?x)) with (44 :: x).
      cbv iota. change (44 =? 93) with false. change (44 =? 44) with true. cbv iota.
      rewrite IHe by lia. reflexivity.
  - intros [k v] m rest Hsz.
    rewrite members_size_cons in Hsz. simpl snd in Hsz.
    assert (forall tl,
              parse_members (S f) (member_text (k, v) ++ tl)
              = match skip_ws tl with
                | d :: s5 =>
                    if d =? 125 then Some ([(k, lift v)], s5)
                    else if d =? 44 then
                      match parse_members f s5 with
                      | Some (m, s6) => Some ((k, lift v) :: m, s6)
                      | None => None
                      end
                    else None
                | [] => None
                end) as Hstep.
    { intros tl.
      replace (member_text (k, v) ++ tl)
        with (34 :: quote_body k ++ 34 :: 58 :: stringify v ++ tl)
        by (unfold member_text, quote; cbn [fst snd];
            rewrite <- !app_assoc; simpl; now rewrite <- app_assoc).
      rewrite parse_members_step, parse_chars_quote_body.
      change (skip_ws (58 :: ?x)) with (58 :: x). cbv iota.
      change (58 =? 58) with true. cbv iota.
      rewrite IHv by lia. reflexivity. }
    destruct m as [|kw m].
    + change (join_comma (map member_text [(k, v)])) with (member_text (k, v)).
      rewrite Hstep. reflexivity.
    + rewrite map_cons, (map_cons _ kw), join_comma_cons2, <- app_assoc.
      rewrite Hstep.
      change ((44 :: join_comma (member_text kw :: map member_text m)) ++ 125 :: rest)
        with (44 :: (join_comma (map member_text (kw :: m)) ++ 125 :: rest)).
      change (skip_ws (44 :: ?x)) with (44 :: x).
      cbv iota. change (44 =? 125) with false. change (44 =? 44) with true. cbv iota.
      rewrite IHm by lia. reflexivity.
Qed.

(** *** The length of the text is fuel enough *)

Lemma elements_size_le (l : list plain) :
  Forall (fun v => (jsize v <= length (stringify v))%nat) l ->
  (elements_size l <= length (join_comma (map stringify l)) + 1)%nat.
Proof.
  induction 1 as [|v l Hv Hl IH]; [unfold elements_size; simpl; lia|].
  rewrite elements_size_cons. destruct l as [|w l].
  - change (join_comma (map stringify [v])) with (stringify v).
    change (elements_size []) with 0%nat. lia.
  - rewrite map_cons, (map_cons _ w), join_comma_cons2, length_app, length_cons.
    change (stringify w :: map stringify l) with (map stringify (w :: l)). lia.
Qed.

Lemma member_text_length (kv : jsstring * plain) :
  (length (stringify (snd kv)) + 3 <= length (member_text kv))%nat.
Proof.
  unfold member_text, quote. simpl. rewrite !length_app. simpl. lia.
Qed.

Lemma members_size_le (m : list (jsstring * plain)) :
  Forall (fun kv => (jsize (snd kv) <= length (stringify (snd kv)))%nat) m ->
  (members_size m <= length (join_comma (map member_text m)) + 1)%nat.
Proof.
  induction 1 as [|kv m Hv Hm IH]; [unfold members_size; simpl; lia|].
  rewrite members_size_cons. pose proof (member_text_length kv) as Hk.
  destruct m as [|kw m].
  - change (join_comma (map member_text [kv])) with (member_text kv).
    change (members_size []) with 0%nat. lia.
  - rewrite map_cons, (map_cons _ kw), join_comma_cons2, length_app, length_cons.
    change (member_text kw :: map member_text m) with (map member_text (kw :: m)). lia.
Qed.

Lemma elements_size_elem (l : list plain) (v : plain) :
  v ∈ l -> (S (jsize v) <= elements_size l)%nat.
Proof.
  induction 1 as [v l|v w l _ IH]; rewrite elements_size_cons; lia.
Qed.

Lemma members_size_elem (m : list (jsstring * plain)) (kv : jsstring * plain) :
  kv ∈ m -> (S (jsize (snd kv)) <= members_size m)%nat.
Proof.
  induction 1 as [kv m|kv kw m _ IH]; rewrite members_size_cons; lia.
Qed.

Lemma jsize_le_length (j : plain) : (jsize j <= length (stringify j))%nat.
Proof.
  assert (forall n j, (jsize j <= n)%nat -> (jsize j <= length (stringify j))%nat) as H.
  { clear j. induction n as [|n IH]; intros j Hn.
    - pose proof (jsize_pos j). lia.
    - destruct j as [|[]|[]|s|l|m]; try (simpl; lia).
      + rewrite jsize_array in *.
        change (stringify (JArr l)) with (91 :: join_comma (map stringify l) ++ [93]).
        simpl length. rewrite length_app. simpl length.
        enough (elements_size l <= length (join_comma (map stringify l)) + 1)%nat by lia.
        apply elements_size_le, Forall_forall. intros v Hv. apply IH.
        apply elements_size_elem in Hv. lia.
      + rewrite jsize_object in *.
        change (stringify (JObj m)) with (123 :: join_comma (map member_text m) ++ [125]).
        simpl length. rewrite length_app. simpl length.
        enough (members_size m <= length (join_comma (map member_text m)) + 1)%nat by lia.
        apply members_size_le, Forall_forall. intros kv Hkv. apply IH.
        apply members_size_elem in Hkv. lia. }
  now apply (H (jsize j)).
Qed.

(** Parsing the text [JSON.stringify] writes for a value gives the value back. *)
Lemma parse_stringify (j : plain) : parse (stringify j) = Some (lift j).
Proof.
  unfold parse.
  pose proof (proj1 (parse_stringify_fuel (S (length (stringify j)))) j []) as E.
  rewrite app_nil_r in E. rewrite E; [reflexivity|].
  pose proof (jsize_le_length j). lia.
Qed.

Lemma stringify_truthy (j : plain) : truthy_string (stringify j) = true.
Proof. destruct (stringify_head j) as (c & t & -> & _). reflexivity. Qed.

End JSONFacts.

(** ** Persistence *)

Module PersistenceFacts.

Import Persistence JSONFacts.

Lemma status_of_value_value (s : VideoStatus) : status_of_value (status_value s) = Some s.
Proof. destruct s; reflexivity. Qed.

Lemma category_of_value_value (c : VideoCategory) :
  category_of_value (category_value c) = Some c.
Proof. destruct c; reflexivity. Qed.

Lemma as_strings_JStr (l : list jsstring) : as_strings (JArr (map JStr l)) = Some l.
Proof.
  simpl. induction l as [|x l IH]; [reflexivity|].
  rewrite map_cons. cbn. cbn in IH. rewrite IH. reflexivity.
Qed.

Ltac read_member k val :=
  match goal with
  | |- context [obj_get (u16 k) ?m] => change (obj_get (u16 k) m) with val
  end.

Lemma as_video_json (v : Video) : as_video (video_json v) = Some v.
Proof.
  destruct v as [i t u g c s a n y].
  pose proof (as_strings_JStr g) as Hg.
  pose proof (category_of_value_value c) as Hc.
  pose proof (status_of_value_value s) as Hs.
  unfold as_video, video_json, field. cbn [aiSummary id title url tags category status addedAt notes].
  destruct y as [y|].
  all: read_member "id" (Some (JStr i : value)).
  all: read_member "title" (Some (JStr t : value)).
  all: read_member "url" (Some (JStr u : value)).
  all: read_member "tags" (Some (JArr (map JStr g) : value)).
  all: read_member "category" (Some (JStr (category_value c) : value)).
  all: read_member "status" (Some (JStr (status_value s) : value)).
  all: read_member "addedAt" (Some (JStr a : value)).
  all: read_member "notes" (Some (JStr n : value)).
  - read_member "aiSummary" (Some (JStr y : value)).
    cbn [mbind option_bind as_string fmap option_fmap option_map].
    rewrite Hg, Hc, Hs. reflexivity.
  - read_member "aiSummary" (@None value).
    cbn [mbind option_bind as_string fmap option_fmap option_map].
    rewrite Hg, Hc, Hs. reflexivity.
Qed.

Lemma as_videos_json (vs : list Video) : as_videos (videos_json vs) = Some vs.
Proof.
  unfold as_videos, videos_json.
  induction vs as [|v vs IH]; [reflexivity|].
  rewrite map_cons. cbn -[as_video video_json].
  rewrite as_video_json. cbn -[as_video video_json].
  cbn -[as_video video_json] in IH. rewrite IH. reflexivity.
Qed.

Lemma lift_video_json {num} (v : Video) : lift (video_json v) = @video_json num v.
Proof.
  destruct v as [i t u g c s a n y]. unfold video_json.
  cbn [aiSummary id title url tags category status addedAt notes].
  assert (map (@lift num) (map JStr g) = map JStr g) as Hg
    by (induction g as [|x g IH]; simpl; congruence).
  destruct y; simpl; now rewrite Hg.
Qed.

Lemma lift_videos_json {num} (vs : list Video) : lift (videos_json vs) = @videos_json num vs.
Proof.
  unfold videos_json. simpl. f_equal.
  induction vs as [|v vs IH]; [reflexivity|].
  rewrite !map_cons, lift_video_json. now f_equal.
Qed.

(** C7. Writing the record list to storage and initialising the store from
    what was written gives the same list: the same records, field for
    field, in the same order.  The text parses back to the value that was
    written. *)
Theorem persist_then_reload (vs : list Video) :
  initial_videos (Some (persist vs)) = Some vs
  /\ parse (persist vs) = Some (videos_json vs).
Proof.
  unfold initial_videos, persist.
  now rewrite stringify_truthy, parse_stringify, lift_videos_json, as_videos_json.
Qed.

(** Nothing stored, or text that does not parse: the store starts empty. *)
Lemma initial_videos_absent : initial_videos None = Some [].
Proof. reflexivity. Qed.

Lemma initial_videos_unreadable (text : jsstring) :
  parse text = None -> initial_videos (Some text) = Some [].
Proof. intros H. unfold initial_videos. rewrite H. now destruct (truthy_string text). Qed.

End PersistenceFacts.

(** ** The generation client *)

Module ServiceFacts.

Import Service.

(** *** Global replace and trim *)

Lemma starts_with_length (p s : jsstring) :
  starts_with p s = true -> (length p <= length s)%nat.
Proof.
  revert s; induction p as [|a p IH]; intros [|b s]; simpl; try lia; try discriminate.
  intros H. apply andb_true_iff in H as [_ H]. apply IH in H. lia.
Qed.

Lemma starts_with_app_other (p s t : jsstring) (c : N) :
  c ∉ p -> starts_with p (s ++ c :: t) = starts_with p s.
Proof.
  revert s; induction p as [|a p IH]; intros s Hc; [now destruct s|].
  apply not_elem_of_cons in Hc as [Hca Hc].
  destruct s as [|b s]; simpl.
  - destruct (N.eqb_spec a c); [congruence|reflexivity].
  - now rewrite IH.
Qed.

Lemma remove_all_from_app (p t : jsstring) (c : N) :
  c ∉ p ->
  forall s k, (k <= length s)%nat ->
    remove_all_from p k (s ++ c :: t)
    = remove_all_from p k s ++ remove_all_from p 0 (c :: t).
Proof.
  intros Hc. induction s as [|x s IH]; intros k Hk.
  - simpl in Hk. now replace k with 0%nat by lia.
  - destruct k as [|k].
    + change (remove_all_from p 0 ((x :: s) ++ c :: t))
        with (if starts_with p ((x :: s) ++ c :: t)
              then remove_all_from p (Nat.pred (length p)) (s ++ c :: t)
              else x :: remove_all_from p 0 (s ++ c :: t)).
      change (remove_all_from p 0 (x :: s))
        with (if starts_with p (x :: s)
              then remove_all_from p (Nat.pred (length p)) s
              else x :: remove_all_from p 0 s).
      rewrite starts_with_app_other by exact Hc.
      destruct (starts_with p (x :: s)) eqn:E.
      * apply IH. apply starts_with_length in E. simpl in E. lia.
      * rewrite IH by lia. reflexivity.
    + simpl. apply IH. simpl in Hk. lia.
Qed.

Lemma remove_all_app (p s t : jsstring) (c : N) :
  c ∉ p -> remove_all p (s ++ c :: t) = remove_all p s ++ remove_all p (c :: t).
Proof. intros Hc. apply remove_all_from_app; [exact Hc|lia]. Qed.

Lemma remove_all_other (p t : jsstring) (c : N) :
  c ∉ p -> p <> [] -> remove_all p (c :: t) = c :: remove_all p t.
Proof.
  intros Hc Hp. unfold remove_all. destruct p as [|a p]; [congruence|].
  apply not_elem_of_cons in Hc as [Hc _]. simpl.
  destruct (N.eqb_spec a c); [congruence|reflexivity].
Qed.

Lemma remove_all_blank (p w t : jsstring) :
  p <> [] -> Forall (fun c => c ∉ p) w -> remove_all p (w ++ t) = w ++ remove_all p t.
Proof.
  intros Hp. induction 1 as [|c w Hc _ IH]; [reflexivity|].
  simpl app. rewrite remove_all_other by assumption. now rewrite IH.
Qed.

Lemma white_space_not_in_fence (c : N) :
  is_white_space c = true -> (c ∉ u16 "```json") /\ (c ∉ u16 "```").
Proof.
  intros Hc.
  assert (c <> 96 /\ c <> 106 /\ c <> 115 /\ c <> 111 /\ c <> 110) as (H1 & H2 & H3 & H4 & H5).
  { repeat split; intros E; rewrite E in Hc; discriminate Hc. }
  change (u16 "```json") with [96; 96; 96; 106; 115; 111; 110].
  change (u16 "```") with [96; 96; 96].
  rewrite !not_elem_of_cons. repeat split; auto; apply not_elem_of_nil.
Qed.

Lemma blank_not_in_fence (w : jsstring) :
  Spec.blank w ->
  Forall (fun c => c ∉ u16 "```json") w /\ Forall (fun c => c ∉ u16 "```") w.
Proof.
  unfold Spec.blank. rewrite !Forall_forall.
  split; intros c Hc; now apply white_space_not_in_fence, H.
Qed.

Lemma trim_start_blank (w s : jsstring) :
  Spec.blank w -> trim_start (w ++ s) = trim_start s.
Proof. induction 1 as [|c w Hc _ IH]; simpl; [reflexivity|]. now rewrite Hc. Qed.

Lemma trim_end_blank (s w : jsstring) :
  Spec.blank w -> trim_end (s ++ w) = trim_end s.
Proof.
  intros Hw. unfold trim_end. rewrite rev_app_distr, trim_start_blank; [reflexivity|].
  unfold Spec.blank in *. now apply Forall_rev.
Qed.

Lemma trim_blank (w1 s w2 : jsstring) :
  Spec.blank w1 -> Spec.blank w2 -> trim (w1 ++ s ++ w2) = trim s.
Proof.
  intros H1 H2. unfold trim. rewrite trim_start_blank by exact H1.
  induction s as [|c s IH]; simpl.
  - rewrite <- (app_nil_r w2), trim_start_blank by exact H2. reflexivity.
  - destruct (is_white_space c); [exact IH|].
    change (c :: s ++ w2) with ((c :: s) ++ w2). now apply trim_end_blank.
Qed.

Lemma starts_with_app (p s t : jsstring) :
  starts_with p s = true -> starts_with p (s ++ t) = true.
Proof.
  revert s; induction p as [|a p IH]; intros [|b s]; simpl; try discriminate; auto.
  intros H. apply andb_true_iff in H as [-> H]. now rewrite IH.
Qed.

Lemma starts_with_short (p s : jsstring) :
  (length s < length p)%nat -> starts_with p s = false.
Proof.
  intros H. destruct (starts_with p s) eqn:E; [|reflexivity].
  apply starts_with_length in E. lia.
Qed.

Lemma starts_with_app_long (p s t : jsstring) :
  (length p <= length s)%nat -> starts_with p (s ++ t) = starts_with p s.
Proof.
  revert s; induction p as [|a p IH]; intros [|b s] H; simpl in *; try lia; auto.
  rewrite IH by lia. reflexivity.
Qed.

(** Appending [t] adds no match to the scan of [s] when no match can begin
    in [s] and end in [t]. *)
Lemma remove_all_from_app_clear (p t : jsstring) :
  (forall s, s <> [] -> (length s < length p)%nat -> starts_with p (s ++ t) = false) ->
  forall s k, (k <= length s)%nat ->
    remove_all_from p k (s ++ t) = remove_all_from p k s ++ remove_all_from p 0 t.
Proof.
  intros Hclear. induction s as [|x s IH]; intros k Hk.
  - simpl in Hk. now replace k with 0%nat by lia.
  - destruct k as [|k]; [|simpl; apply IH; simpl in Hk; lia].
    change (remove_all_from p 0 ((x :: s) ++ t))
      with (if starts_with p ((x :: s) ++ t)
            then remove_all_from p (Nat.pred (length p)) (s ++ t)
            else x :: remove_all_from p 0 (s ++ t)).
    change (remove_all_from p 0 (x :: s))
      with (if starts_with p (x :: s)
            then remove_all_from p (Nat.pred (length p)) s
            else x :: remove_all_from p 0 s).
    assert (starts_with p ((x :: s) ++ t) = starts_with p (x :: s)) as ->.
    { destruct (le_lt_dec (length p) (length (x :: s))) as [Hl|Hl].
      - now apply starts_with_app_long.
      - rewrite Hclear by (discriminate || exact Hl). symmetry. now apply starts_with_short. }
    destruct (starts_with p (x :: s)) eqn:E.
    + apply IH. apply starts_with_length in E. simpl in E. lia.
    + rewrite IH by lia. reflexivity.
Qed.

Lemma remove_all_blank_id (p w : jsstring) :
  p <> [] -> Forall (fun c => c ∉ p) w -> remove_all p w = w.
Proof.
  intros Hp Hw. rewrite <- (app_nil_r w) at 1.
  rewrite remove_all_blank by assumption. now rewrite app_nil_r.
Qed.

(** Settles the comparisons of code units a goal is stuck on. *)
Ltac settle_eqb :=
  repeat match goal with
  | |- context [N.eqb ?x ?y] =>
      first [ is_var y; destruct (N.eqb_spec x y) as [<-|_]
            | let v := eval vm_compute in (N.eqb x y) in change (N.eqb x y) with v ];
      cbn [andb]
  end.

(** No occurrence of [```json] begins before a closing fence and ends in it. *)
Lemma closing_fence_clear (w s : jsstring) :
  s <> [] -> (length s < length (u16 "```json"))%nat ->
  starts_with (u16 "```json") (s ++ u16 "```" ++ w) = false.
Proof.
  intros Hs Hl.
  change (u16 "```json") with [96; 96; 96; 106; 115; 111; 110] in *.
  change (u16 "```") with [96; 96; 96].
  destruct s as [|a [|b [|c [|d [|e [|f [|g s]]]]]]]; simpl in Hl; try lia; try congruence;
    cbn [starts_with app]; settle_eqb; reflexivity.
Qed.

Lemma remove_json_before_closing_fence (s w : jsstring) :
  Spec.blank w ->
  remove_all (u16 "```json") (s ++ u16 "```" ++ w)
  = remove_all (u16 "```json") s ++ u16 "```" ++ w.
Proof.
  intros Bw. pose proof (blank_not_in_fence _ Bw) as [Bj _].
  unfold remove_all. rewrite remove_all_from_app_clear.
  - f_equal. destruct w as [|c w]; [reflexivity|].
    assert (c ∉ u16 "```json") by now inversion Bj.
    fold (remove_all (u16 "```json") (u16 "```" ++ c :: w)).
    rewrite remove_all_app by assumption.
    change (remove_all (u16 "```json") (u16 "```")) with (u16 "```").
    rewrite remove_all_blank_id; [reflexivity|discriminate|exact Bj].
  - intros s' Hs Hl. now apply closing_fence_clear.
  - lia.
Qed.

(** A closing fence after [s] takes the place of the back-quotes the scan of
    [s] ends on: what is left is what is left of [s]. *)
Lemma remove_fence_before_closing_fence (w : jsstring) :
  Spec.blank w ->
  forall s k, (k <= length s)%nat ->
    remove_all_from (u16 "```") k (s ++ u16 "```" ++ w)
    = remove_all_from (u16 "```") k s ++ w.
Proof.
  intros Bw. pose proof (blank_not_in_fence _ Bw) as [_ Bf].
  pose proof (remove_all_blank_id (u16 "```") w ltac:(discriminate) Bf) as Hw.
  unfold remove_all in Hw.
  assert (starts_with (u16 "```") (96 :: 96 :: w) = false
          /\ starts_with (u16 "```") (96 :: w) = false) as [H2 H1].
  { destruct w as [|c w]; [split; reflexivity|].
    assert (c <> 96) as Hc.
    { inversion Bf as [|? ? Hc _]; subst. intros ->. apply Hc. constructor. }
    change (u16 "```") with [96; 96; 96]. cbn [starts_with].
    destruct (N.eqb_spec 96 c); [congruence|]. settle_eqb. split; reflexivity. }
  change (u16 "```") with [96; 96; 96] in *.
  induction s as [|x s IH]; intros k Hk.
  - simpl in Hk. replace k with 0%nat by lia. simpl. exact Hw.
  - destruct k as [|k]; [|simpl; apply IH; simpl in Hk; lia].
    change (remove_all_from [96; 96; 96] 0 ((x :: s) ++ [96; 96; 96] ++ w))
      with (if starts_with [96; 96; 96] ((x :: s) ++ [96; 96; 96] ++ w)
            then remove_all_from [96; 96; 96] 2 (s ++ [96; 96; 96] ++ w)
            else x :: remove_all_from [96; 96; 96] 0 (s ++ [96; 96; 96] ++ w)).
    change (remove_all_from [96; 96; 96] 0 (x :: s))
      with (if starts_with [96; 96; 96] (x :: s)
            then remove_all_from [96; 96; 96] 2 s
            else x :: remove_all_from [96; 96; 96] 0 s).
    destruct (starts_with [96; 96; 96] (x :: s)) eqn:E.
    + rewrite (starts_with_app _ _ _ E). apply IH.
      apply starts_with_length in E. simpl in E. lia.
    + destruct (starts_with [96; 96; 96] ((x :: s) ++ [96; 96; 96] ++ w)) eqn:E';
        [|rewrite IH by lia; reflexivity].
      (* the match begins in [s] and ends in the fence *)
      destruct s as [|y [|z s]].
      * cbn [starts_with app] in E'. apply andb_true_iff in E' as [Hx _].
        apply N.eqb_eq in Hx. subst x.
        cbn [remove_all_from app]. now rewrite H1, Hw.
      * cbn [starts_with app] in E'. apply andb_true_iff in E' as [Hx E'].
        apply N.eqb_eq in Hx. subst x.
        apply andb_true_iff in E' as [Hy _]. apply N.eqb_eq in Hy. subst y.
        cbn [remove_all_from app].
        change (starts_with [96; 96; 96] [96]) with false. cbv iota.
        now rewrite H2, H1, Hw.
      * rewrite starts_with_app_long in E' by (simpl; lia). congruence.
Qed.

(** An opening fence without the tag stays when what follows does not
    complete [```json]. *)
Lemma remove_json_after_opening_fence (c : N) (t : jsstring) :
  c <> 96 -> c <> 106 ->
  remove_all (u16 "```json") (u16 "```" ++ c :: t)
  = u16 "```" ++ remove_all (u16 "```json") (c :: t).
Proof.
  intros H1 H2. unfold remove_all.
  change (u16 "```json") with [96; 96; 96; 106; 115; 111; 110].
  change (u16 "```") with [96; 96; 96].
  cbn [remove_all_from starts_with app length Nat.pred].
  destruct (N.eqb_spec 106 c); [congruence|].
  destruct (N.eqb_spec 96 c); [congruence|].
  settle_eqb. reflexivity.
Qed.

(** The text between the fences is what is left of a fenced response: the
    fences may touch the text when it does not begin with a back-quote or
    with the letter j. *)
Lemma sanitize_fenced (opening w1 w2 w3 text : jsstring) :
  Spec.is_opening_fence opening ->
  Spec.blank w1 -> Spec.blank w2 -> Spec.blank w3 ->
  (exists c t, text = c :: t /\ c <> 96 /\ c <> 106) ->
  sanitize (Spec.fenced opening w1 w2 w3 text) = sanitize text.
Proof.
  intros Ho B1 B2 B3 (c & t & Ht & Hc1 & Hc2).
  pose proof (blank_not_in_fence _ B1) as [B1j B1f].
  pose proof (blank_not_in_fence _ B2) as [B2j B2f].
  pose proof (blank_not_in_fence _ B3) as [B3j B3f].
  (* the first replace, on the part after the opening fence *)
  assert (remove_all (u16 "```json") (w1 ++ text ++ w2 ++ u16 "```" ++ w3)
          = w1 ++ remove_all (u16 "```json") text ++ w2 ++ u16 "```" ++ w3) as R.
  { rewrite remove_all_blank; [|discriminate|exact B1j]. f_equal.
    rewrite app_assoc, remove_json_before_closing_fence by exact B3.
    assert (remove_all (u16 "```json") (text ++ w2)
            = remove_all (u16 "```json") text ++ w2) as ->; [|now rewrite <- app_assoc].
    destruct w2 as [|c2 w2]; [now rewrite !app_nil_r|].
    assert (c2 ∉ u16 "```json") by now inversion B2j.
    rewrite remove_all_app by assumption. f_equal.
    apply remove_all_blank_id; [discriminate|exact B2j]. }
  assert (exists pre, (pre = [] \/ pre = u16 "```")
            /\ remove_all (u16 "```json") (Spec.fenced opening w1 w2 w3 text)
               = pre ++ w1 ++ remove_all (u16 "```json") text ++ w2 ++ u16 "```" ++ w3)
    as (pre & Hpre & R1).
  { unfold Spec.fenced. destruct Ho as [->| ->].
    - exists []. split; [now left|].
      change (remove_all (u16 "```json") (u16 "```json" ++ ?x))
        with (remove_all (u16 "```json") x).
      exact R.
    - exists (u16 "```"). split; [now right|]. rewrite <- R.
      destruct w1 as [|c1 w1].
      + subst text. apply remove_json_after_opening_fence; assumption.
      + assert (is_white_space c1 = true) as Hw by now inversion B1.
        apply remove_json_after_opening_fence; intros ->; discriminate Hw. }
  (* the second replace *)
  unfold sanitize. rewrite R1.
  assert (remove_all (u16 "```")
            (pre ++ w1 ++ remove_all (u16 "```json") text ++ w2 ++ u16 "```" ++ w3)
          = w1 ++ remove_all (u16 "```") (remove_all (u16 "```json") text) ++ w2 ++ w3) as R2.
  { transitivity (remove_all (u16 "```")
                    (w1 ++ remove_all (u16 "```json") text ++ w2 ++ u16 "```" ++ w3)).
    { destruct Hpre as [->| ->]; reflexivity. }
    rewrite remove_all_blank; [|discriminate|exact B1f]. f_equal.
    rewrite app_assoc. unfold remove_all at 1.
    rewrite remove_fence_before_closing_fence by (exact B3 || lia).
    fold (remove_all (u16 "```") (remove_all (u16 "```json") text ++ w2)).
    assert (remove_all (u16 "```") (remove_all (u16 "```json") text ++ w2)
            = remove_all (u16 "```") (remove_all (u16 "```json") text) ++ w2) as ->;
      [|now rewrite <- app_assoc].
    destruct w2 as [|c2 w2]; [now rewrite !app_nil_r|].
    assert (c2 ∉ u16 "```") by now inversion B2f.
    rewrite remove_all_app by assumption. f_equal.
    apply remove_all_blank_id; [discriminate|exact B2f]. }
  rewrite R2. apply trim_blank; [exact B1|].
  unfold Spec.blank in *. now apply Forall_app.
Qed.

(** Valid JSON text does not begin with a back-quote or with the letter j. *)
Lemma parse_head (text : jsstring) (v : value) :
  parse text = Some v -> exists c t, text = c :: t /\ c <> 96 /\ c <> 106.
Proof.
  unfold parse. destruct text as [|c t]; [discriminate|].
  intros H. exists c, t. split; [reflexivity|].
  split; intros ->; discriminate H.
Qed.

(** *** The operations *)

Lemma category_of_value_Some (s : jsstring) (c : VideoCategory) :
  category_of_value s = Some c -> category_value c = s.
Proof.
  unfold category_of_value. intros H. apply find_some in H as [_ H].
  now apply str_eqb_eq.
Qed.

Section Operations.

Variable num : Type.
Variable num_truthy : num -> bool.
Variable JSON_parse : jsstring -> option (json num).

Abbreviation extract := (extractVideoMetadata num num_truthy JSON_parse).
Abbreviation suggest := (generateSuggestions num JSON_parse).
Abbreviation search := (semanticSearchVideos num num_truthy JSON_parse).
Abbreviation parses := (Spec.response_parses num JSON_parse).
Abbreviation unparsable := (Spec.response_unparsable num JSON_parse).

Lemma no_text_false (t : option jsstring) :
  no_text t = false <-> exists s, t = Some s /\ s <> [].
Proof.
  destruct t as [[|c s]|]; simpl; split.
  - discriminate.
  - intros (s' & [= <-] & H). congruence.
  - intros _. eexists. split; [reflexivity|discriminate].
  - reflexivity.
  - discriminate.
  - intros (s' & [=] & _).
Qed.

(** What the extraction answers, by the outcome of the call. *)
Lemma extract_call_fails (call : client) (url : jsstring) (e : exn) :
  call (MetadataRequest url category_values) = Throw e ->
  extract (Some call) url = Throw (Error extraction_failed_message).
Proof. intros H. unfold extractVideoMetadata. now rewrite H. Qed.

Lemma extract_no_text (call : client) (url : jsstring) (t : option jsstring) :
  call (MetadataRequest url category_values) = Ok (mkResponse t) ->
  no_text t = true ->
  extract (Some call) url = Throw (Error extraction_failed_message).
Proof. intros H Ht. unfold extractVideoMetadata. rewrite H. simpl. now rewrite Ht. Qed.

Lemma extract_text (call : client) (url : jsstring) (t : jsstring) :
  call (MetadataRequest url category_values) = Ok (mkResponse (Some t)) ->
  t <> [] ->
  extract (Some call) url =
  match JSON_parse (sanitize t) with
  | None | Some JNull => Throw (Error extraction_failed_message)
  | Some data =>
      Ok (mkMetadata (or_default num num_truthy (Spec.member num data "title") (JStr []))
                     (valid_category num (Spec.member num data "category"))
                     (or_default num num_truthy (Spec.member num data "tags") (JArr []))
                     (or_default num num_truthy (Spec.member num data "notes") (JStr [])))
  end.
Proof.
  intros H Ht. unfold extractVideoMetadata. rewrite H.
  destruct t as [|c t]; [congruence|]. simpl.
  unfold parse_or_throw. destruct (JSON_parse (sanitize (c :: t))) as [[]|]; reflexivity.
Qed.

Lemma valid_category_member (x : option (json num)) (c : VideoCategory) :
  x = Some (JStr (category_value c)) -> valid_category num x = c.
Proof.
  intros ->. simpl. now rewrite PersistenceFacts.category_of_value_value.
Qed.

Lemma valid_category_other (x : option (json num)) :
  (forall c, x <> Some (JStr (category_value c))) -> valid_category num x = OTHER.
Proof.
  intros H. destruct x as [[| | |s| |]|]; try reflexivity. simpl.
  destruct (category_of_value s) as [c|] eqn:E; [|reflexivity].
  apply category_of_value_Some in E. exfalso. apply (H c). now rewrite E.
Qed.

(** C8, as the code has it.  For a configured client: valid JSON text
    between code fences is treated as the text itself; when the response parses
    to a value other than null the result carries the category the value
    names if that is a member of the enumeration and OTHER otherwise; and
    the operation throws the error with the user-facing message exactly
    when the call fails, the response is empty, the response does not
    parse, or it parses to null, and throws nothing else. *)
Theorem metadata_extraction (call : client) (url : jsstring) :
  (forall (call' : client) opening w1 w2 w3 t v,
      Spec.is_opening_fence opening ->
      Spec.blank w1 -> Spec.blank w2 -> Spec.blank w3 ->
      JSON.parse t = Some v ->
      call (MetadataRequest url category_values) = Ok (mkResponse (Some t)) ->
      call' (MetadataRequest url category_values)
        = Ok (mkResponse (Some (Spec.fenced opening w1 w2 w3 t))) ->
      extract (Some call') url = extract (Some call) url)
  /\ (forall data,
        parses sanitize (call (MetadataRequest url category_values)) data ->
        data <> JNull ->
        exists md, extract (Some call) url = Ok md
          /\ (forall c, Spec.member num data "category" = Some (JStr (category_value c)) ->
                        md_category md = c)
          /\ ((forall c, Spec.member num data "category" <> Some (JStr (category_value c))) ->
              md_category md = OTHER))
  /\ (extract (Some call) url = Throw (Error extraction_failed_message)
      <-> Spec.call_fails (call (MetadataRequest url category_values))
          \/ Spec.response_empty (call (MetadataRequest url category_values))
          \/ unparsable sanitize (call (MetadataRequest url category_values))
          \/ parses sanitize (call (MetadataRequest url category_values)) JNull)
  /\ (forall e, extract (Some call) url = Throw e -> e = Error extraction_failed_message).
Proof.
  split; [|split; [|split]].
  - intros call' opening w1 w2 w3 t v Ho B1 B2 B3 Hv Hc Hc'.
    pose proof (parse_head t v Hv) as Hhead.
    assert (t <> []) as Nt by (destruct Hhead as (c & t' & -> & _); discriminate).
    rewrite (extract_text call url t Hc Nt).
    assert (Spec.fenced opening w1 w2 w3 t <> []) as Nf
      by (unfold Spec.fenced; destruct Ho as [-> | ->]; discriminate).
    rewrite (extract_text call' url (Spec.fenced opening w1 w2 w3 t) Hc' Nf).
    now rewrite sanitize_fenced.
  - intros data (t & Hc & Nt & Hp) Hnull.
    rewrite (extract_text call url t Hc Nt), Hp.
    destruct data; try congruence; eexists; (split; [reflexivity|]); simpl md_category;
      (split; [intros c; apply valid_category_member|apply valid_category_other]).
  - split.
    + intros Hthrow.
      destruct (call (MetadataRequest url category_values)) as [[t]|e] eqn:Hc;
        [|left; now exists e].
      right. destruct (no_text t) eqn:Ht; [left; now exists t|].
      right. apply no_text_false in Ht as (s & -> & Ns).
      rewrite (extract_text call url s Hc Ns) in Hthrow.
      destruct (JSON_parse (sanitize s)) as [data|] eqn:Hp.
      * right. exists s. destruct data; try discriminate Hthrow. auto.
      * left. exists s. auto.
    + intros [(e & Hc)|[(t & Hc & Ht)|[(t & Hc & Nt & Hp)|(t & Hc & Nt & Hp)]]].
      * eapply extract_call_fails, Hc.
      * eapply extract_no_text; eauto.
      * now rewrite (extract_text call url t Hc Nt), Hp.
      * now rewrite (extract_text call url t Hc Nt), Hp.
  - intros e Hthrow.
    destruct (call (MetadataRequest url category_values)) as [[t]|e'] eqn:Hc.
    + destruct (no_text t) eqn:Ht.
      * rewrite (extract_no_text call url t Hc Ht) in Hthrow. congruence.
      * apply no_text_false in Ht as (s & -> & Ns).
        rewrite (extract_text call url s Hc Ns) in Hthrow.
        destruct (JSON_parse (sanitize s)) as [[]|]; congruence.
    + rewrite (extract_call_fails call url e' Hc) in Hthrow. congruence.
Qed.

(** Without a configured client the extraction throws, with a message of
    its own. *)
Lemma extract_unconfigured (url : jsstring) :
  extract None url = Throw (Error (u16 "API Key missing")).
Proof. reflexivity. Qed.

(** C9. Suggestion and semantic search always answer with a value, never
    with a thrown error; without a client, when the call fails, when the
    response is empty and when it does not parse, suggestion answers
    [{tags: [], category: ''}] and search answers the empty list; search
    answers the empty list for an empty record list too. *)
Theorem suggestions_and_search_never_raise :
  (forall ai title, exists j, suggest ai title = Ok j)
  /\ (forall ai query videos, exists j, search ai query videos = Ok j)
  /\ (forall title, suggest None title = Ok (no_suggestions num))
  /\ (forall call title,
        Spec.call_fails (call (SuggestionsRequest title))
        \/ Spec.response_empty (call (SuggestionsRequest title))
        \/ unparsable (fun t => t) (call (SuggestionsRequest title)) ->
        suggest (Some call) title = Ok (no_suggestions num))
  /\ (forall query videos, search None query videos = Ok (JArr []))
  /\ (forall ai query, search ai query [] = Ok (JArr []))
  /\ (forall call query videos,
        Spec.call_fails (call (SearchRequest query (map index_entry videos)))
        \/ Spec.response_empty (call (SearchRequest query (map index_entry videos)))
        \/ unparsable (fun t => t) (call (SearchRequest query (map index_entry videos))) ->
        search (Some call) query videos = Ok (JArr [])).
Proof.
  split; [|split; [|split; [|split; [|split; [|split]]]]].
  - intros [call|] title; [|eexists; reflexivity].
    unfold generateSuggestions.
    destruct (call (SuggestionsRequest title)) as [[t]|e]; [|eexists; reflexivity].
    simpl. destruct (no_text t); [eexists; reflexivity|].
    unfold parse_or_throw. destruct (JSON_parse (text_or_empty t)); eexists; reflexivity.
  - intros [call|] query [|v vs]; try (eexists; reflexivity).
    unfold semanticSearchVideos.
    destruct (call (SearchRequest query (map index_entry (v :: vs)))) as [[t]|e];
      [|eexists; reflexivity].
    simpl. destruct (no_text t); [eexists; reflexivity|].
    unfold parse_or_throw.
    destruct (JSON_parse (text_or_empty t)) as [[]|]; eexists; reflexivity.
  - reflexivity.
  - intros call title [(e & H)|[(t & H & Ht)|(t & H & Nt & Hp)]];
      unfold generateSuggestions; rewrite H; simpl.
    + reflexivity.
    + now rewrite Ht.
    + destruct t as [|c t]; [congruence|]. simpl. unfold parse_or_throw. now rewrite Hp.
  - reflexivity.
  - intros [call|] query; reflexivity.
  - intros call query [|v vs] Hr; [reflexivity|].
    destruct Hr as [(e & H)|[(t & H & Ht)|(t & H & Nt & Hp)]];
      unfold semanticSearchVideos; rewrite H; simpl.
    + reflexivity.
    + now rewrite Ht.
    + destruct t as [|c t]; [congruence|]. simpl. unfold parse_or_throw. now rewrite Hp.
Qed.

(** A response that parses to null, or to a value without a truthy [ids],
    gives the empty list as well. *)
Lemma search_null (call : client) (query : jsstring) (videos : list Video) :
  parses (fun t => t) (call (SearchRequest query (map index_entry videos))) JNull ->
  search (Some call) query videos = Ok (JArr []).
Proof.
  intros (t & H & Nt & Hp). destruct videos as [|v vs]; [reflexivity|].
  unfold semanticSearchVideos. rewrite H. destruct t as [|c t]; [congruence|].
  simpl. unfold parse_or_throw. now rewrite Hp.
Qed.

End Operations.

End ServiceFacts.

(** ** The theorems at sample inputs *)

Module Witnesses.

Import App Samples Service.

#[local] Close Scope N_scope.

(** C3 at three records, the query "ROCQ" and the category filter SCIENCE. *)
Lemma standard_view_witness :
  ascii_toLowerCase [] = []
  /\ (forall v,
        v ∈ filteredVideos ascii_toLowerCase [va; vb; vc] (u16 "ROCQ") ALL (Only SCIENCE)
              false [] false
        <-> v ∈ [va; vb; vc]
            /\ Spec.standard_predicate ascii_toLowerCase (u16 "ROCQ") ALL (Only SCIENCE) v)
  /\ Spec.ascii (u16 "ROCQ")
  /\ (forall v, Spec.ascii (title v) -> Forall Spec.ascii (tags v) ->
        (v ∈ filteredVideos ascii_toLowerCase [va; vb; vc] (u16 "ROCQ") ALL (Only SCIENCE)
               false [] false
         <-> v ∈ [va; vb; vc]
             /\ Spec.standard_predicate_on_text (u16 "ROCQ") ALL (Only SCIENCE) v)).
Proof.
  assert (Spec.ascii (u16 "ROCQ")) as Hq by (repeat constructor).
  destruct (AppFacts.standard_view ascii_toLowerCase [va; vb; vc] [] false
              (u16 "ROCQ") ALL (Only SCIENCE) eq_refl) as (H1 & _ & _ & _ & H5).
  split; [reflexivity|]. split; [exact H1|]. split; [exact Hq|].
  apply H5; [reflexivity|exact Hq].
Defined.

Example standard_view_query_and_category :
  filteredVideos ascii_toLowerCase [va; vb; vc] (u16 "ROCQ") ALL ALL false [] false = [va; vc]
  /\ filteredVideos ascii_toLowerCase [va; vb; vc] (u16 "ROCQ") ALL (Only SCIENCE) false [] false
     = [vc]
  /\ filteredVideos ascii_toLowerCase [va; vb; vc] [] (Only WATCHING) ALL false [] false = [vb].
Proof. vm_compute. auto. Qed.

(** C4 at a two-record list with the second record under edit. *)
Lemma handleUpdate_frame_witness :
  editingVideo (state [va; vb] (Some vb)) = Some vb
  /\ length (videos (handleUpdate form (state [va; vb] (Some vb))))
     = length (videos (state [va; vb] (Some vb)))
  /\ forall n v, videos (state [va; vb] (Some vb)) !! n = Some v ->
       exists v', videos (handleUpdate form (state [va; vb] (Some vb))) !! n = Some v'
         /\ id v' = id v /\ addedAt v' = addedAt v
         /\ (id v = id vb ->
               title v' = form_title form /\ url v' = form_url form
               /\ tags v' = form_tags form /\ category v' = form_category form
               /\ status v' = form_status form /\ notes v' = form_notes form
               /\ aiSummary v' = aiSummary v)
         /\ (id v <> id vb -> v' = v).
Proof.
  split; [reflexivity|].
  apply (AppFacts.handleUpdate_frame (state [va; vb] (Some vb)) vb form). reflexivity.
Defined.

Example handleUpdate_second_record :
  videos (handleUpdate form (state [va; vb] (Some vb)))
  = [va; mkVideo (u16 "b") (u16 "New title") (u16 "https://example.org/n") [u16 "x"]
           DESIGN ARCHIVED (u16 "2024-01-01T00:00:00.000Z") (u16 "note") None].
Proof. vm_compute. reflexivity. Qed.

(** C5 at a three-record list, deleting the middle record. *)
Lemma handleDelete_removes_one_witness :
  NoDup (id <$> videos (state [va; vb; vc] None))
  /\ u16 "b" ∈ (id <$> videos (state [va; vb; vc] None))
  /\ exists l1 v l2,
       videos (state [va; vb; vc] None) = l1 ++ v :: l2 /\ id v = u16 "b"
       /\ videos (handleDelete true (u16 "b") (state [va; vb; vc] None)) = l1 ++ l2
       /\ length (videos (handleDelete true (u16 "b") (state [va; vb; vc] None))) + 1
          = length (videos (state [va; vb; vc] None)).
Proof.
  assert (NoDup (id <$> videos (state [va; vb; vc] None))) as Hnd
    by (apply (bool_decide_unpack _); vm_compute; exact I).
  assert (u16 "b" ∈ (id <$> videos (state [va; vb; vc] None))) as Hin
    by (apply (bool_decide_unpack _); vm_compute; exact I).
  split; [exact Hnd|]. split; [exact Hin|].
  exact (AppFacts.handleDelete_removes_one (state [va; vb; vc] None) (u16 "b") Hnd Hin).
Defined.

Example handleDelete_middle :
  videos (handleDelete true (u16 "b") (state [va; vb; vc] None)) = [va; vc].
Proof. vm_compute. reflexivity. Qed.

(** C10 at an id list naming the record a twice. *)
Lemma ai_view_keeps_repeats_witness :
  u16 "a" ∈ (id <$> [va; vb])
  /\ exists v, v ∈ [va; vb] /\ id v = u16 "a"
       /\ length (filter (fun x => x = v)
                    (filteredVideos ascii_toLowerCase [va; vb] [] ALL ALL true
                       [u16 "a"; u16 "b"; u16 "a"] true))
          = length (filter (fun j => j = u16 "a") [u16 "a"; u16 "b"; u16 "a"])
       /\ (2 <= length (filter (fun j => j = u16 "a") [u16 "a"; u16 "b"; u16 "a"]) ->
           ~ NoDup (filteredVideos ascii_toLowerCase [va; vb] [] ALL ALL true
                      [u16 "a"; u16 "b"; u16 "a"] true)).
Proof.
  assert (u16 "a" ∈ (id <$> [va; vb])) as Hin
    by (apply (bool_decide_unpack _); vm_compute; exact I).
  split; [exact Hin|].
  exact (AppFacts.ai_view_keeps_repeats ascii_toLowerCase [va; vb]
           [u16 "a"; u16 "b"; u16 "a"] [] ALL ALL (u16 "a") Hin).
Defined.

Example ai_view_repeats :
  filteredVideos ascii_toLowerCase [va; vb] [] ALL ALL true [u16 "a"; u16 "b"; u16 "a"] true
  = [va; vb; va].
Proof. vm_compute. reflexivity. Qed.

(** Two records sharing an id: the AI view shows the later one. *)
Example ai_view_shared_id :
  filteredVideos ascii_toLowerCase [va; va'; vb] [] ALL ALL true [u16 "a"] true = [va'].
Proof. vm_compute. reflexivity. Qed.

(** C2 as stated fails: in AI mode, before any search, a status filter
    still hides the records of another status. *)
Lemma ai_view_before_search_still_filters :
  filteredVideos ascii_toLowerCase [va; vb] [] (Only WATCHING) ALL true [] false = [vb]
  /\ [vb] <> [va; vb].
Proof. split; [vm_compute; reflexivity|discriminate]. Qed.

(** C7 at two records, one with a summary and characters that need escaping. *)
Example persist_then_reload_sample :
  let v := mkVideo (u16 "id-1") [72; 34; 92; 10; 55357; 56832; 55357; 31]%N
             (u16 "https://example.org") [u16 "t"; []] OTHER TRASH (u16 "2024")
             (u16 "n") (Some (u16 "summary")) in
  Persistence.initial_videos (Some (Persistence.persist [v; va])) = Some [v; va].
Proof. vm_compute. reflexivity. Qed.

(** C8: a fenced response and the bare text give the same metadata, here
    with a category outside the enumeration. *)
Lemma metadata_extraction_fenced_witness :
  extractVideoMetadata jsstring literal_truthy JSON.parse
    (Some (answering (Spec.fenced (u16 "```json") line_break line_break [] metadata_text)))
    (u16 "https://example.org/v")
  = extractVideoMetadata jsstring literal_truthy JSON.parse
      (Some (answering metadata_text)) (u16 "https://example.org/v").
Proof.
  refine (proj1 (ServiceFacts.metadata_extraction jsstring literal_truthy JSON.parse
                   (answering metadata_text) (u16 "https://example.org/v"))
            (answering (Spec.fenced (u16 "```json") line_break line_break [] metadata_text))
            (u16 "```json") line_break line_break [] metadata_text
            (JObj [ (u16 "title", JStr (u16 "Learn Rocq"));
                    (u16 "category", JStr (u16 "cooking"));
                    (u16 "tags", JArr [JStr (u16 "proofs")]) ])
            _ _ _ _ _ _ _).
  - left. reflexivity.
  - repeat constructor.
  - repeat constructor.
  - constructor.
  - vm_compute. reflexivity.
  - reflexivity.
  - reflexivity.
Defined.

(** Fences that touch the text, with and without the tag. *)
Example sanitize_touching_fences :
  sanitize (Spec.fenced (u16 "```") [] [] [] (u16 "null")) = u16 "null"
  /\ sanitize (Spec.fenced (u16 "```json") [] [] line_break metadata_text) = metadata_text.
Proof. vm_compute. auto. Qed.

Example metadata_extraction_sample :
  extractVideoMetadata jsstring literal_truthy JSON.parse
    (Some (answering metadata_text)) (u16 "https://example.org/v")
  = Ok (mkMetadata (JStr (u16 "Learn Rocq")) OTHER (JArr [JStr (u16 "proofs")]) (JStr [])).
Proof. vm_compute. reflexivity. Qed.

(** C8 as stated fails: the response [null] is not empty and parses, the
    call succeeds, and the operation throws all the same. *)
Lemma metadata_extraction_null_raises :
  extractVideoMetadata jsstring literal_truthy JSON.parse
    (Some (answering (u16 "null"))) (u16 "https://example.org/v")
  = Throw (Error extraction_failed_message)
  /\ JSON.parse (sanitize (u16 "null")) = Some JNull
  /\ ~ (Spec.call_fails
          (answering (u16 "null") (MetadataRequest (u16 "https://example.org/v") category_values))
        \/ Spec.response_empty
             (answering (u16 "null") (MetadataRequest (u16 "https://example.org/v") category_values))
        \/ Spec.response_unparsable jsstring JSON.parse sanitize
             (answering (u16 "null") (MetadataRequest (u16 "https://example.org/v") category_values))).
Proof.
  split; [vm_compute; reflexivity|]. split; [vm_compute; reflexivity|].
  intros [(e & H)|[(t & H & Ht)|(t & H & _ & Hp)]].
  - discriminate H.
  - injection H as <-. discriminate Ht.
  - injection H as <-. vm_compute in Hp. discriminate Hp.
Qed.

(** C9 at an endpoint that fails every call. *)
Lemma suggestions_and_search_witness :
  generateSuggestions jsstring JSON.parse (Some failing) (u16 "Learn Rocq")
  = Ok (no_suggestions jsstring)
  /\ semanticSearchVideos jsstring literal_truthy JSON.parse (Some failing) (u16 "proofs") [va; vb]
     = Ok (JArr []).
Proof.
  pose proof (ServiceFacts.suggestions_and_search_never_raise jsstring literal_truthy JSON.parse)
    as (_ & _ & _ & Hs & _ & _ & Hq).
  split.
  - apply Hs. left. eexists. reflexivity.
  - apply Hq. left. eexists. reflexivity.
Defined.

Example search_answers :
  semanticSearchVideos jsstring literal_truthy JSON.parse
    (Some (answering ids_text)) (u16 "proofs") [va; vb]
  = Ok (JArr [JStr (u16 "b"); JStr (u16 "a")])
  /\ semanticSearchVideos jsstring literal_truthy JSON.parse
       (Some (answering (u16 "not json"))) (u16 "proofs") [va; vb]
     = Ok (JArr [])
  /\ semanticSearchVideos jsstring literal_truthy JSON.parse
       (Some (answering (u16 "null"))) (u16 "proofs") [va; vb]
     = Ok (JArr []).
Proof. vm_compute. auto. Qed.

End Witnesses.


(** * Further properties *)

(** ** The handlers of the store *)

Module StoreFacts.

Import App Ui.

#[local] Close Scope N_scope.

Lemma ids_map (f : Video -> Video) (l : list Video) :
  (forall v, id (f v) = id v) -> id <$> map f l = id <$> l.
Proof.
  intros Hf. induction l as [|v l IH]; [reflexivity|].
  rewrite map_cons, !fmap_cons, Hf, IH. reflexivity.
Qed.

Lemma map_unchanged (f : Video -> Video) (l : list Video) :
  (forall v, v ∈ l -> f v = v) -> map f l = l.
Proof.
  induction l as [|v l IH]; intros Hf; [reflexivity|].
  rewrite map_cons, Hf by constructor. f_equal. apply IH.
  intros w Hw. apply Hf. now constructor.
Qed.

Lemma ids_handleUpdate (data : VideoFormData) (st : State) :
  id <$> videos (handleUpdate data st) = id <$> videos st.
Proof.
  unfold handleUpdate. destruct (editingVideo st) as [e|]; [|reflexivity].
  simpl. apply ids_map. intros v. now destruct (str_eqb (id v) (id e)).
Qed.

Lemma ids_handleDetailUpdate (updated : Video) (st : State) :
  id <$> videos (handleDetailUpdate updated st) = id <$> videos st.
Proof.
  simpl. apply ids_map. intros v.
  destruct (str_eqb (id v) (id updated)) eqn:E; [|reflexivity].
  symmetry. now apply str_eqb_eq.
Qed.

(** X1. Replacing a record from the detail dialog keeps the identifiers of
    the list and their order; position by position, a record carrying the
    identifier of the replacement becomes the replacement and any other
    record stays as it is; when no record carries that identifier the list
    is unchanged (nothing is added). *)
Theorem handleDetailUpdate_frame (updated : Video) (st : State) :
  id <$> videos (handleDetailUpdate updated st) = id <$> videos st
  /\ (forall n v, videos st !! n = Some v ->
        videos (handleDetailUpdate updated st) !! n
        = Some (if decide (id v = id updated) then updated else v))
  /\ (id updated ∉ (id <$> videos st) ->
      videos (handleDetailUpdate updated st) = videos st)
  /\ detailVideo (handleDetailUpdate updated st) = Some updated.
Proof.
  split; [apply ids_handleDetailUpdate|]. split; [|split; [|reflexivity]].
  - intros n v Hn. simpl.
    rewrite (AppFacts.lookup_map _ _ _ _ Hn), str_eqb_decide.
    now destruct (decide (id v = id updated)) as [E|E];
      [rewrite bool_decide_eq_true_2|rewrite bool_decide_eq_false_2].
  - intros Hnot. simpl. apply map_unchanged. intros v Hv.
    destruct (str_eqb (id v) (id updated)) eqn:E; [|reflexivity].
    apply str_eqb_eq in E. exfalso. apply Hnot. rewrite <- E.
    now apply list_elem_of_fmap_2.
Qed.

(** X2. An edit submitted for an identifier no record carries (the record
    was deleted meanwhile) leaves the list as it is: no record is created
    again.  The edit is closed all the same. *)
Theorem handleUpdate_absent (data : VideoFormData) (st : State) (e : Video) :
  editingVideo st = Some e ->
  id e ∉ (id <$> videos st) ->
  videos (handleUpdate data st) = videos st
  /\ editingVideo (handleUpdate data st) = None.
Proof.
  intros He Hnot. unfold handleUpdate. rewrite He. split; [|reflexivity].
  simpl. apply map_unchanged. intros v Hv.
  destruct (str_eqb (id v) (id e)) eqn:E; [|reflexivity].
  apply str_eqb_eq in E. exfalso. apply Hnot. rewrite <- E.
  now apply list_elem_of_fmap_2.
Qed.

Lemma filter_keeps_NoDup_ids (p : Video -> bool) (l : list Video) :
  NoDup (id <$> l) -> NoDup (id <$> List.filter p l).
Proof.
  induction l as [|v l IH]; [now intros|]. rewrite fmap_cons. intros Hnd.
  apply NoDup_cons in Hnd as [Hv Hnd]. cbn [List.filter].
  destruct (p v); [|now apply IH]. rewrite fmap_cons. apply NoDup_cons.
  split; [|now apply IH]. intros Hin. apply Hv.
  apply list_elem_of_fmap in Hin as (w & Hw & Hin).
  apply list_elem_of_In, filter_In in Hin as [Hin _]. rewrite Hw.
  now apply list_elem_of_fmap_2, list_elem_of_In.
Qed.

(** X3. Deletion at its edges: a declined confirmation leaves the state as
    it is; a confirmed deletion leaves no record carrying the identifier,
    keeps every other record, and changes nothing when no record carries
    it. *)
Theorem handleDelete_edges (i : jsstring) (st : State) :
  handleDelete false i st = st
  /\ (i ∉ (id <$> videos (handleDelete true i st)))
  /\ (forall v, id v <> i -> (v ∈ videos (handleDelete true i st) <-> v ∈ videos st))
  /\ (i ∉ (id <$> videos st) -> videos (handleDelete true i st) = videos st).
Proof.
  split; [reflexivity|]. simpl. split; [|split].
  - intros Hin. apply list_elem_of_fmap in Hin as (v & -> & Hin).
    apply list_elem_of_In, filter_In in Hin as [_ Hin].
    now rewrite str_eqb_refl in Hin.
  - intros v Hv. rewrite !list_elem_of_In, filter_In. split; [tauto|].
    intros Hin. split; [exact Hin|]. now apply negb_true_iff, str_eqb_neq.
  - intros Hnot. apply AppFacts.filter_all. intros v Hv.
    apply negb_true_iff, str_eqb_neq. intros E. apply Hnot. rewrite <- E.
    now apply list_elem_of_fmap_2.
Qed.

Lemma begin_state (s s' : Screen) :
  handleAiSearch_begin s = Some s' ->
  state s' = set_aiSearchPerformed true (state s).
Proof.
  unfold handleAiSearch_begin.
  destruct (truthy_string (trim (searchQuery (state s)))); [|discriminate].
  now intros [= <-].
Qed.

Lemma step_videos (s s' : Screen) :
  step s s' ->
  videos (state s') = videos (state s)
  \/ (exists uuid now data, (uuid ∉ (id <$> videos (state s)))
        /\ videos (state s') = videos (onSubmit uuid now data (state s)))
  \/ (exists i, videos (state s') = videos (handleDelete true i (state s)))
  \/ (exists updated, videos (state s') = videos (handleDetailUpdate updated (state s))).
Proof.
  destruct 1 as [s|s v|s|s uuid now data Hf|s [] i|s d|s u|s q|s f|s f|s|s s' Hm Hb|s r];
    try (left; reflexivity).
  - right. left. now exists uuid, now, data.
  - right. right. left. now exists i.
  - right. right. right. now exists u.
  - left. unfold toggleAiSearchMode, resetAiSearch. simpl.
    destruct (negb (isAiSearchMode (state s))); [reflexivity|]. simpl.
    now destruct (truthy_string (searchQuery (state s))).
  - left. now rewrite (begin_state _ _ Hb).
  - left. now destruct r.
Qed.

(** X4. The identifiers of the store stay unique: from a screen whose
    records carry pairwise different identifiers, whatever the user does
    (open and submit the form, delete, update from the detail dialog,
    type, filter, toggle, search), the records of every screen reached
    carry pairwise different identifiers, as long as each identifier
    drawn for a new record is carried by no stored record. *)
Theorem reachable_unique_ids (s0 s : Screen) :
  reachable s0 s ->
  NoDup (id <$> videos (state s0)) ->
  NoDup (id <$> videos (state s)).
Proof.
  induction 1 as [|s s' _ IH Hstep]; intros H0; [exact H0|].
  specialize (IH H0).
  destruct (step_videos _ _ Hstep)
    as [E|[(uuid & now & data & Hf & E)|[(i & E)|(u & E)]]]; rewrite E.
  - exact IH.
  - unfold onSubmit. destruct (editingVideo (state s)).
    + now rewrite ids_handleUpdate.
    + change (videos (handleCreate uuid now data (state s)))
        with (newVideo uuid now data :: videos (state s)).
      rewrite fmap_cons. apply NoDup_cons. now split.
  - now apply filter_keeps_NoDup_ids.
  - now rewrite ids_handleDetailUpdate.
Qed.

Lemma step_ai_flags (s s' : Screen) :
  step s s' ->
  (aiSearchPerformed (state s) = true -> isAiSearchMode (state s) = true) ->
  aiSearchPerformed (state s') = true -> isAiSearchMode (state s') = true.
Proof.
  destruct 1 as [s|s v|s|s uuid now data Hf|s [] i|s d|s u|s q|s f|s f|s|s s' Hm Hb|s r];
    simpl; auto.
  - unfold onSubmit, handleUpdate. destruct (editingVideo (state s)); simpl; auto.
  - intros _. unfold toggleAiSearchMode, resetAiSearch. simpl.
    destruct (isAiSearchMode (state s)); simpl; [|auto].
    destruct (truthy_string (searchQuery (state s))); simpl; discriminate.
  - intros _ _. rewrite (begin_state _ _ Hb). exact Hm.
  - destruct r; simpl; auto.
Qed.

(** X5. An AI result is only ever in force in AI mode: from a screen where
    no search is marked performed outside AI mode, every screen reached has
    [aiSearchPerformed] only with [isAiSearchMode]; so whenever AI mode is
    off no search is marked performed, also when a search settles after AI
    mode was left. *)
Theorem reachable_performed_in_ai_mode (s0 s : Screen) :
  reachable s0 s ->
  (aiSearchPerformed (state s0) = true -> isAiSearchMode (state s0) = true) ->
  aiSearchPerformed (state s) = true -> isAiSearchMode (state s) = true.
Proof.
  induction 1 as [|s s' _ IH Hstep]; intros H0; [exact H0|].
  eapply step_ai_flags; eauto.
Qed.

End StoreFacts.

(** ** The AI button and the AI search *)

Module AiSearchFacts.

Import App Ui Service Read AiSearch.

#[local] Close Scope N_scope.

Section View.

Variable toLowerCase : jsstring -> jsstring.

Abbreviation filters_only st :=
  (List.filter (fun v => matchesStatus (statusFilter st) v
                         && matchesCategory (categoryFilter st) v) (videos st)).

Lemma view_empty_query (st : State) :
  toLowerCase [] = [] ->
  isAiSearchMode st = false -> searchQuery st = [] ->
  view toLowerCase st = filters_only st.
Proof.
  intros Hl Hm Hq. unfold view, filteredVideos. rewrite Hm, Hq. simpl.
  apply filter_ext. intros v. unfold matchesSearch.
  now rewrite Hl, includes_nil.
Qed.

Lemma view_awaiting (st : State) :
  isAiSearchMode st = true -> aiSearchPerformed st = false ->
  view toLowerCase st = filters_only st.
Proof. intros Hm Hp. unfold view, filteredVideos. now rewrite Hm, Hp. Qed.

(** X6. The AI button flips AI mode and touches neither the records nor
    the two filters.  Leaving AI mode clears the query, the AI ids and the
    performed mark; entering it keeps all three.  Right after the button is
    pressed, in either direction (entering with no search marked
    performed), the list shows exactly the records passing the status and
    category filters. *)
Theorem toggleAiSearchMode_effect (st : State) :
  isAiSearchMode (toggleAiSearchMode st) = negb (isAiSearchMode st)
  /\ videos (toggleAiSearchMode st) = videos st
  /\ statusFilter (toggleAiSearchMode st) = statusFilter st
  /\ categoryFilter (toggleAiSearchMode st) = categoryFilter st
  /\ (isAiSearchMode st = true ->
      searchQuery (toggleAiSearchMode st) = []
      /\ aiMatchedIds (toggleAiSearchMode st) = []
      /\ aiSearchPerformed (toggleAiSearchMode st) = false)
  /\ (isAiSearchMode st = false ->
      searchQuery (toggleAiSearchMode st) = searchQuery st
      /\ aiMatchedIds (toggleAiSearchMode st) = aiMatchedIds st
      /\ aiSearchPerformed (toggleAiSearchMode st) = aiSearchPerformed st)
  /\ (toLowerCase [] = [] ->
      isAiSearchMode st = true \/ aiSearchPerformed st = false ->
      view toLowerCase (toggleAiSearchMode st) = filters_only st).
Proof.
  assert (isAiSearchMode st = true ->
          toggleAiSearchMode st
          = mkState (videos st) (editingVideo st) (detailVideo st) []
                    (statusFilter st) (categoryFilter st) false [] false) as Hoff.
  { intros Hm. destruct st as [vs e d q sf cf m ids p]. simpl in Hm. subst m.
    unfold toggleAiSearchMode, resetAiSearch. simpl. destruct q; reflexivity. }
  assert (isAiSearchMode st = false ->
          toggleAiSearchMode st = set_isAiSearchMode true st) as Hon.
  { intros Hm. destruct st as [vs e d q sf cf m ids p]. simpl in Hm. now subst m. }
  destruct (isAiSearchMode st) eqn:Hm.
  - rewrite Hoff by reflexivity. repeat split; try discriminate.
    intros Hl _. now rewrite view_empty_query.
  - rewrite Hon by reflexivity. repeat split; try discriminate.
    intros Hl [|Hp]; [discriminate|]. now rewrite view_awaiting.
Qed.

Section WithClient.

Variable num : Type.
Variable num_truthy : num -> bool.
Variable JSON_parse : jsstring -> option (json num).
Variable ai : option client.

Abbreviation search := (semanticSearchVideos num num_truthy JSON_parse ai).
Abbreviation run_search := (handleAiSearch num num_truthy JSON_parse ai).

Lemma search_never_throws (query : jsstring) (vs : list Video) :
  exists j, search query vs = Ok j.
Proof.
  unfold semanticSearchVideos. destruct ai as [call|]; [|eexists; reflexivity].
  destruct vs as [|v vs]; [eexists; reflexivity|].
  destruct (call (SearchRequest query (map (index_entry) (v :: vs)))) as [[t]|e];
    [|eexists; reflexivity].
  simpl. destruct (no_text t); [eexists; reflexivity|].
  unfold parse_or_throw.
  destruct (JSON_parse (text_or_empty t)) as [[]|]; eexists; reflexivity.
Qed.

Lemma strings_of_JStr (ids : list jsstring) :
  strings_of (JArr (map (@JStr num) ids)) = Some ids.
Proof.
  simpl. induction ids as [|i ids IH]; [reflexivity|].
  rewrite map_cons. cbn. cbn in IH. now rewrite IH.
Qed.

(** X7. The AI search handler: on a blank query it does nothing and calls
    nothing; it never reaches its [alert], whatever the client and the
    endpoint do; and when the search answers the ids [ids], the screen is
    marked performed, holds these ids, and in AI mode shows, for each id in
    order, the record carrying it. *)
Theorem handleAiSearch_outcome (s : Screen) :
  (trim (searchQuery (state s)) = [] -> run_search s = Some (s, false))
  /\ (forall s' alerted, run_search s = Some (s', alerted) ->
        alerted = false /\ videos (state s') = videos (state s))
  /\ (forall ids,
        trim (searchQuery (state s)) <> [] ->
        search (searchQuery (state s)) (videos (state s)) = Ok (JArr (map JStr ids)) ->
        exists s', run_search s = Some (s', false)
          /\ aiSearchPerformed (state s') = true
          /\ aiMatchedIds (state s') = ids
          /\ isAiSearching s' = false
          /\ (isAiSearchMode (state s) = true ->
              view toLowerCase (state s')
              = omap (fun i => matchedMap (videos (state s)) !! i) ids)).
Proof.
  unfold handleAiSearch, handleAiSearch_begin, search_result.
  split; [|split].
  - intros ->. reflexivity.
  - intros s' alerted.
    destruct (truthy_string (trim (searchQuery (state s)))).
    + destruct (search_never_throws (searchQuery (state s)) (videos (state s))) as [j ->].
      destruct (strings_of j) as [ids|]; [|discriminate].
      intros [= <- <-]. split; reflexivity.
    + intros [= <- <-]. split; reflexivity.
  - intros ids Hq Hs. rewrite Hs, strings_of_JStr.
    destruct (trim (searchQuery (state s))) as [|c q]; [congruence|].
    eexists. split; [reflexivity|]. repeat split.
    intros Hm. unfold view, filteredVideos. simpl. now rewrite Hm.
Qed.

(** X8. A search that fails shows an empty list: in AI mode, on a query
    that is not blank, when there is no client, when the call throws, when
    the response is empty and when it does not parse, the handler leaves
    the screen marked performed with no ids, and the list shown is empty. *)
Theorem handleAiSearch_failed (s : Screen) :
  isAiSearchMode (state s) = true ->
  trim (searchQuery (state s)) <> [] ->
  ai = None
  \/ (exists call, ai = Some call
        /\ (Spec.call_fails
              (call (SearchRequest (searchQuery (state s))
                                   (map index_entry (videos (state s)))))
            \/ Spec.response_empty
                 (call (SearchRequest (searchQuery (state s))
                                      (map index_entry (videos (state s)))))
            \/ Spec.response_unparsable num JSON_parse (fun t => t)
                 (call (SearchRequest (searchQuery (state s))
                                      (map index_entry (videos (state s))))))) ->
  exists s', run_search s = Some (s', false)
    /\ aiSearchPerformed (state s') = true
    /\ aiMatchedIds (state s') = []
    /\ view toLowerCase (state s') = [].
Proof.
  intros Hm Hq Hfail.
  assert (search (searchQuery (state s)) (videos (state s)) = Ok (JArr [])) as Hs.
  { unfold semanticSearchVideos. destruct Hfail as [->|(call & -> & Hfail)]; [reflexivity|].
    destruct (videos (state s)) as [|v vs]; [reflexivity|].
    destruct Hfail as [(e & ->)|[(t & -> & Ht)|(t & -> & Nt & Hp)]]; simpl.
    - reflexivity.
    - now rewrite Ht.
    - destruct t as [|c t]; [congruence|]. simpl. unfold parse_or_throw. now rewrite Hp. }
  unfold handleAiSearch, handleAiSearch_begin, search_result. rewrite Hs.
  destruct (trim (searchQuery (state s))) as [|c q]; [congruence|].
  eexists. split; [reflexivity|]. repeat split.
  unfold view, filteredVideos. simpl. now rewrite Hm.
Qed.

End WithClient.

End View.

End AiSearchFacts.

(** ** Summary generation and the detail dialog *)

Module SummaryFacts.

Import App Service Detail.

#[local] Close Scope N_scope.

Abbreviation sorry_text := (u16 "Sorry, I couldn't generate a summary at this time.").
Abbreviation connection_error_text :=
  (u16 "Error connecting to AI service. Please try again later.").

Lemma summary_with_client (call : client) (video : Video) (ctx : option jsstring) :
  exists summary,
    generateVideoSummary (Some call) video ctx = Ok summary
    /\ summary <> []
    /\ summary
       = match call (SummaryRequest video ctx) with
         | Throw _ => connection_error_text
         | Ok r => if no_text (text r) then sorry_text else text_or_empty (text r)
         end.
Proof.
  unfold generateVideoSummary.
  destruct (call (SummaryRequest video ctx)) as [[[[|c t]|]]|e]; simpl;
    eexists; (split; [reflexivity|]); (split; [discriminate|reflexivity]).
Qed.

(** X9. Summary generation throws exactly when no client is configured.
    With a client it always returns a string, and never the empty one: the
    response text when there is one, a fixed apology when the response has
    no text, and a fixed error sentence when the call throws. *)
Theorem generateVideoSummary_outcome (ai : option client) (video : Video)
    (ctx : option jsstring) :
  (ai = None <-> exists e, generateVideoSummary ai video ctx = Throw e)
  /\ (forall call, ai = Some call ->
        exists summary,
          generateVideoSummary ai video ctx = Ok summary
          /\ summary <> []
          /\ (Spec.call_fails (call (SummaryRequest video ctx)) ->
              summary = connection_error_text)
          /\ (Spec.response_empty (call (SummaryRequest video ctx)) ->
              summary = sorry_text)
          /\ (forall t, call (SummaryRequest video ctx) = Ok (mkResponse (Some t)) ->
              t <> [] -> summary = t)).
Proof.
  split.
  - split.
    + intros ->. eexists. reflexivity.
    + intros [e He]. destruct ai as [call|]; [|reflexivity].
      destruct (summary_with_client call video ctx) as (s & Hs & _). congruence.
  - intros call ->.
    destruct (summary_with_client call video ctx) as (s & Hs & Hne & Hval).
    exists s. split; [exact Hs|]. split; [exact Hne|]. split; [|split].
    + intros [e He]. now rewrite He in Hval.
    + intros (t & Hr & Ht). rewrite Hr in Hval. simpl in Hval. now rewrite Ht in Hval.
    + intros t Hr Ht. rewrite Hr in Hval. simpl in Hval.
      destruct t; [congruence|exact Hval].
Qed.

(** X10. The summary button of the detail dialog.  Without a client
    nothing is stored and the failure is announced.  With a client the
    handler never announces a failure: every stored record carrying the
    dialog record's identifier is replaced by the dialog's copy with a
    non-empty summary, which the card then marks; the other records, the
    identifiers and the order stay.  This holds also when the call threw:
    the fixed error sentence is then what is stored as the summary. *)
Theorem handleGenerateSummary_stores (ai : option client) (video : Video)
    (d : DetailState) (st : State) :
  (ai = None ->
     handleGenerateSummary ai video d st
     = (st, mkDetail false (extraContext d) (showContextInput d), true))
  /\ (forall call, ai = Some call ->
        exists summary,
          summary <> []
          /\ handleGenerateSummary ai video d st
             = (handleDetailUpdate (with_summary video summary) st,
                mkDetail false (extraContext d) false, false)
          /\ id <$> videos (handleDetailUpdate (with_summary video summary) st)
             = id <$> videos st
          /\ (forall n v, videos st !! n = Some v ->
                videos (handleDetailUpdate (with_summary video summary) st) !! n
                = Some (if decide (id v = id video)
                        then with_summary video summary else v))
          /\ shows_summary_mark (with_summary video summary) = true
          /\ (Spec.call_fails (call (SummaryRequest video (Some (extraContext d)))) ->
              summary = connection_error_text)).
Proof.
  split.
  - intros ->. reflexivity.
  - intros call ->.
    destruct (summary_with_client call video (Some (extraContext d)))
      as (s & Hs & Hne & Hval).
    exists s. split; [exact Hne|]. split.
    { unfold handleGenerateSummary. now rewrite Hs. }
    split.
    { apply StoreFacts.ids_handleDetailUpdate. }
    split.
    { intros n v Hn. simpl. rewrite (AppFacts.lookup_map _ _ _ _ Hn). f_equal.
      change (id (with_summary video s)) with (id video).
      destruct (decide (id v = id video)) as [E|E].
      - now rewrite E, str_eqb_refl.
      - apply str_eqb_neq in E. now rewrite E. }
    split.
    { simpl. destruct s; [congruence|reflexivity]. }
    intros [e He]. now rewrite He in Hval.
Qed.

(** X11. A summary that arrives after its record was deleted does not
    bring the record back: the record list stays as the deletion left it,
    whatever the client answers. *)
Theorem summary_after_delete (ai : option client) (video : Video)
    (d : DetailState) (st : State) :
  videos (fst (fst (handleGenerateSummary ai video d
                      (handleDelete true (id video) st))))
  = videos (handleDelete true (id video) st).
Proof.
  unfold handleGenerateSummary.
  destruct (generateVideoSummary ai video (Some (extraContext d))) as [s|e];
    [|reflexivity].
  cbn [fst]. change (videos (handleDetailUpdate ?u ?x))
    with (map (fun v => if str_eqb (id v) (id u) then u else v) (videos x)).
  apply StoreFacts.map_unchanged. intros v Hv.
  change (id (with_summary video s)) with (id video).
  destruct (str_eqb (id v) (id video)) eqn:E; [|reflexivity].
  exfalso. simpl in Hv. apply list_elem_of_In, filter_In in Hv as [_ Hv].
  cbv beta in Hv. now rewrite E in Hv.
Qed.

End SummaryFacts.

(** ** The form dialog *)

Module FormFacts.

Import Service Read Form.

#[local] Close Scope N_scope.

Lemma existsb_str_eqb (t : jsstring) (l : list jsstring) :
  existsb (str_eqb t) l = true <-> t ∈ l.
Proof.
  rewrite existsb_exists. split.
  - intros (x & Hx & E). apply str_eqb_eq in E. subst x. now apply list_elem_of_In.
  - intros H. exists t. split; [now apply list_elem_of_In|apply str_eqb_refl].
Qed.

Lemma existsb_str_eqb_false (t : jsstring) (l : list jsstring) :
  existsb (str_eqb t) l = false <-> t ∉ l.
Proof.
  rewrite <- existsb_str_eqb. destruct (existsb (str_eqb t) l); split; congruence.
Qed.

(** *** [trim] answers a trimmed string *)

Lemma trim_start_head (s : jsstring) (c : N) (r : jsstring) :
  trim_start s = c :: r -> is_white_space c = false.
Proof.
  induction s as [|x s IH]; simpl; [discriminate|].
  destruct (is_white_space x) eqn:E; [exact IH|]. now intros [= <- _].
Qed.

Lemma trim_start_snoc (l : jsstring) (c : N) :
  is_white_space c = false -> exists p, trim_start (l ++ [c]) = p ++ [c].
Proof.
  intros Hc. induction l as [|x l IH]; simpl.
  - rewrite Hc. now exists [].
  - destruct (is_white_space x); [exact IH|]. now exists (x :: l).
Qed.

Lemma trim_start_idem (s : jsstring) : trim_start (trim_start s) = trim_start s.
Proof.
  destruct (trim_start s) as [|c r] eqn:E; [reflexivity|].
  apply trim_start_head in E. simpl. now rewrite E.
Qed.

Lemma trim_end_idem (s : jsstring) : trim_end (trim_end s) = trim_end s.
Proof. unfold trim_end. now rewrite rev_involutive, trim_start_idem. Qed.

Lemma trim_start_trim_end (s : jsstring) :
  trim_start s = s -> trim_start (trim_end s) = trim_end s.
Proof.
  destruct s as [|c r]; [reflexivity|]. intros E.
  apply trim_start_head in E as Hc. unfold trim_end.
  change (rev (c :: r)) with (rev r ++ [c]).
  destruct (trim_start_snoc (rev r) c Hc) as [p ->].
  rewrite rev_app_distr. simpl. now rewrite Hc.
Qed.

Lemma trim_idem (s : jsstring) : trim (trim s) = trim s.
Proof.
  unfold trim. rewrite trim_start_trim_end by apply trim_start_idem.
  apply trim_end_idem.
Qed.

(** X12. Adding a tag.  The tag list only grows at its end, by the trimmed
    input and only when that is not empty and not yet a tag; otherwise the
    form is left as it is, input included.  So the list stays free of
    duplicates, of empty tags and of tags with white space at either end,
    the other fields are kept, and a key other than Enter does nothing. *)
Theorem addTag_invariants (f : FormState) :
  (exists rest, form_tags (formData (addTag f)) = form_tags (formData f) ++ rest
     /\ (rest = [] \/ rest = [trim (tagInput f)]))
  /\ (trim (tagInput f) <> [] -> trim (tagInput f) ∈ form_tags (formData (addTag f)))
  /\ (trim (tagInput f) = [] \/ trim (tagInput f) ∈ form_tags (formData f) ->
      addTag f = f)
  /\ (NoDup (form_tags (formData f)) -> NoDup (form_tags (formData (addTag f))))
  /\ (Forall (fun t => t <> [] /\ trim t = t) (form_tags (formData f)) ->
      Forall (fun t => t <> [] /\ trim t = t) (form_tags (formData (addTag f))))
  /\ set_tags (form_tags (formData f)) (formData (addTag f)) = formData f
  /\ handleKeyDown (u16 "Enter") f = addTag f
  /\ (forall key, key <> u16 "Enter" -> handleKeyDown key f = f).
Proof.
  unfold addTag.
  destruct (trim (tagInput f)) as [|c t] eqn:Et.
  { simpl. split; [exists []; rewrite app_nil_r; auto|].
    split; [congruence|]. split; [reflexivity|]. split; [auto|]. split; [auto|].
    split; [now destruct f as [[]]|]. split.
    - unfold handleKeyDown, addTag. now rewrite Et.
    - intros key Hk. unfold handleKeyDown. apply str_eqb_neq in Hk. now rewrite Hk. }
  cbn [truthy_string andb].
  destruct (existsb (str_eqb (c :: t)) (form_tags (formData f))) eqn:Ein; cbn [negb].
  { apply existsb_str_eqb in Ein.
    split; [exists []; rewrite app_nil_r; auto|].
    split; [auto|]. split; [reflexivity|]. split; [auto|]. split; [auto|].
    split; [now destruct f as [[]]|]. split.
    - unfold handleKeyDown, addTag. rewrite Et. cbn [truthy_string andb].
      apply existsb_str_eqb in Ein. now rewrite Ein.
    - intros key Hk. unfold handleKeyDown. apply str_eqb_neq in Hk. now rewrite Hk. }
  pose proof Ein as Hnot. apply existsb_str_eqb_false in Hnot. simpl.
  split; [exists [c :: t]; auto|].
  split; [intros _; apply elem_of_app; right; constructor|].
  split.
  { intros [E|Hin]; [discriminate|contradiction]. }
  split.
  { intros Hnd. apply NoDup_app. split; [exact Hnd|]. split.
    - intros x Hx Hx'. apply list_elem_of_singleton in Hx'. now subst x.
    - apply NoDup_singleton. }
  split.
  { intros Hall. apply Forall_app. split; [exact Hall|].
    constructor; [|constructor]. split; [discriminate|].
    rewrite <- Et. apply trim_idem. }
  split; [now destruct f as [[]]|]. split.
  - unfold handleKeyDown, addTag. rewrite Et. cbn [truthy_string andb]. now rewrite Ein.
  - intros key Hk. unfold handleKeyDown. apply str_eqb_neq in Hk. now rewrite Hk.
Qed.

Lemma filter_other (t : jsstring) (l : list jsstring) :
  t ∉ l -> List.filter (fun u => negb (str_eqb u t)) l = l.
Proof.
  intros Hn. apply AppFacts.filter_all. intros u Hu.
  apply negb_true_iff, str_eqb_neq. intros ->. apply Hn. now apply list_elem_of_In.
Qed.

(** X13. Removing a tag removes every occurrence of it and nothing else,
    the remaining tags keeping their order; removing a string that is no
    tag changes nothing; and removing the tag that [addTag] has just added
    gives the tag list from before the addition. *)
Theorem removeTag_effect (t : jsstring) (f : FormState) :
  (t ∉ form_tags (formData (removeTag t f)))
  /\ (forall u, u <> t ->
        (u ∈ form_tags (formData (removeTag t f)) <-> u ∈ form_tags (formData f)))
  /\ sublist (form_tags (formData (removeTag t f))) (form_tags (formData f))
  /\ (t ∉ form_tags (formData f) -> removeTag t f = f)
  /\ (trim (tagInput f) ∉ form_tags (formData f) ->
      form_tags (formData (removeTag (trim (tagInput f)) (addTag f)))
      = form_tags (formData f)).
Proof.
  split; [|split; [|split; [|split]]].
  - simpl. intros Hin. apply list_elem_of_In, filter_In in Hin as [_ Hin].
    cbv beta in Hin. now rewrite str_eqb_refl in Hin.
  - intros u Hu. simpl. rewrite !list_elem_of_In, filter_In. cbv beta.
    apply str_eqb_neq in Hu. rewrite Hu. simpl. tauto.
  - simpl. generalize (form_tags (formData f)) as l.
    induction l as [|x l IH]; [constructor|]. cbn [List.filter].
    destruct (negb (str_eqb x t)); now constructor.
  - intros Hn. unfold removeTag. rewrite filter_other by exact Hn.
    now destruct f as [[]].
  - intros Hn. unfold addTag.
    destruct (trim (tagInput f)) as [|c r] eqn:Et.
    + simpl. now apply filter_other.
    + cbn [truthy_string andb]. apply existsb_str_eqb_false in Hn as Hn'.
      rewrite Hn'. cbn [negb removeTag formData form_tags set_formData set_tags].
      rewrite List.filter_app. cbn [List.filter].
      rewrite str_eqb_refl. cbn [negb]. rewrite app_nil_r. now apply filter_other.
Qed.

(** *** [Array.from(new Set(...))] *)

Lemma set_order_elem (l seen : list jsstring) (x : jsstring) :
  x ∈ set_order seen l <-> x ∈ l /\ x ∉ seen.
Proof.
  revert seen. induction l as [|y l IH]; intros seen; simpl.
  - split; [intros H; inversion H|intros [H _]; inversion H].
  - destruct (existsb (str_eqb y) seen) eqn:E.
    + apply existsb_str_eqb in E. rewrite IH, elem_of_cons. split.
      * intros [H1 H2]. auto.
      * intros [[->|H1] H2]; [contradiction|auto].
    + apply existsb_str_eqb_false in E. rewrite elem_of_cons, IH, !elem_of_cons.
      split.
      * intros [->|[H1 H2]]; [auto|]. split; [auto|]. intros H. apply H2. now right.
      * intros [[->|H1] H2]; [auto|].
        destruct (decide (x = y)) as [->|N]; [auto|]. right. split; [exact H1|].
        intros [?|?]; contradiction.
Qed.

Lemma set_order_NoDup (l seen : list jsstring) : NoDup (set_order seen l).
Proof.
  revert seen. induction l as [|y l IH]; intros seen; simpl; [constructor|].
  destruct (existsb (str_eqb y) seen); [apply IH|].
  apply NoDup_cons. split; [|apply IH].
  rewrite set_order_elem. intros [_ H]. apply H. constructor.
Qed.

Lemma set_order_ext (l seen seen' : list jsstring) :
  (forall x, x ∈ seen <-> x ∈ seen') -> set_order seen l = set_order seen' l.
Proof.
  revert seen seen'. induction l as [|y l IH]; intros seen seen' H; simpl; [reflexivity|].
  assert (existsb (str_eqb y) seen = existsb (str_eqb y) seen') as ->.
  { destruct (existsb (str_eqb y) seen') eqn:E.
    - apply existsb_str_eqb. apply H. now apply existsb_str_eqb.
    - apply existsb_str_eqb_false. rewrite H. now apply existsb_str_eqb_false. }
  destruct (existsb (str_eqb y) seen'); [now apply IH|].
  f_equal. apply IH. intros x. rewrite !elem_of_cons, H. reflexivity.
Qed.

Lemma set_order_app (a b seen : list jsstring) :
  set_order seen (a ++ b) = set_order seen a ++ set_order (a ++ seen) b.
Proof.
  revert seen. induction a as [|y a IH]; intros seen; [reflexivity|]. simpl.
  destruct (existsb (str_eqb y) seen) eqn:E.
  - rewrite IH. f_equal. apply set_order_ext. intros x.
    apply existsb_str_eqb in E. rewrite elem_of_cons, !elem_of_app.
    split; [auto|]. intros [->|H]; auto.
  - rewrite IH. simpl. do 2 f_equal. apply set_order_ext. intros x.
    rewrite elem_of_cons, !elem_of_app, elem_of_cons. tauto.
Qed.

Lemma set_order_fresh (l seen : list jsstring) :
  NoDup l -> (forall x, x ∈ l -> x ∉ seen) -> set_order seen l = l.
Proof.
  revert seen. induction l as [|y l IH]; intros seen Hnd Hs; [reflexivity|]. simpl.
  apply NoDup_cons in Hnd as [Hy Hnd].
  assert (existsb (str_eqb y) seen = false) as ->.
  { apply existsb_str_eqb_false, Hs. constructor. }
  f_equal. apply IH; [exact Hnd|]. intros x Hx. rewrite elem_of_cons.
  intros [->|H]; [contradiction|]. apply (Hs x); [now constructor|exact H].
Qed.

Lemma array_from_set_NoDup_id (l : list jsstring) : NoDup l -> array_from_set l = l.
Proof.
  intros H. apply set_order_fresh; [exact H|]. intros x _ Hx. inversion Hx.
Qed.

Lemma array_from_set_app (prev g : list jsstring) :
  NoDup prev -> array_from_set (prev ++ g) = prev ++ set_order prev g.
Proof.
  intros H. unfold array_from_set. rewrite set_order_app, app_nil_r.
  f_equal. now apply array_from_set_NoDup_id.
Qed.

Lemma strings_of_inv {num} (j : json num) (g : list jsstring) :
  strings_of j = Some g -> j = JArr (map JStr g).
Proof.
  destruct j as [| | | |l|]; try discriminate. simpl. intros H. f_equal.
  revert g H. induction l as [|x l IH]; intros g.
  - now intros [= <-].
  - cbn. destruct x as [| | |s| |]; try discriminate. cbn.
    destruct (mapM string_of l) as [g'|] eqn:E; [|discriminate].
    cbn. intros [= <-]. simpl. now rewrite (IH g').
Qed.

Section Merge.

Variable num : Type.
Variable num_truthy : num -> bool.

Abbreviation merge_suggestions := (apply_suggestions num num_truthy).

Lemma category_of_value_iff (c : jsstring) (k : VideoCategory) :
  category_of_value c = Some k <-> c = category_value k.
Proof.
  split.
  - intros H. symmetry. now apply ServiceFacts.category_of_value_Some.
  - intros ->. apply PersistenceFacts.category_of_value_value.
Qed.

Lemma write_category_held (c : jsstring) (d : VideoFormData) :
  category_held (write_category c d) = c
  /\ (category_written (write_category c d) = None <-> exists k, c = category_value k)
  /\ form_title (data_written (write_category c d)) = form_title d
  /\ form_url (data_written (write_category c d)) = form_url d
  /\ form_tags (data_written (write_category c d)) = form_tags d
  /\ form_status (data_written (write_category c d)) = form_status d
  /\ form_notes (data_written (write_category c d)) = form_notes d.
Proof.
  unfold write_category, category_held.
  destruct (category_of_value c) as [k|] eqn:E; simpl.
  - apply category_of_value_iff in E. split; [now rewrite E|].
    split; [|now repeat split]. split; [eauto|reflexivity].
  - split; [reflexivity|]. split; [|now repeat split]. split; [discriminate|].
    intros [k Hk]. apply category_of_value_iff in Hk. congruence.
Qed.

(** X14. Merging suggestions into the form, for suggestions of the declared
    type (an array of strings as tags, a string as category).  The result
    has no duplicate tag; its tags are exactly the previous tags and the
    suggested ones; previous tags that were free of duplicates stay in
    front, in their order, the new ones following; title, url, status and
    notes are kept.  The category is not validated: the form then holds the
    suggested string whenever it is not empty, the value of a member of the
    enumeration or not, and the previous category when it is empty; so the
    form data stay of the type [VideoFormData] exactly when the suggested
    string is empty or the value of a member. *)
Theorem apply_suggestions_merge (m : list (jsstring * json num)) (g : list jsstring)
    (c : jsstring) (prev : VideoFormData) :
  obj_get (u16 "tags") m ≫= strings_of = Some g ->
  obj_get (u16 "category") m = Some (JStr c) ->
  exists r,
    merge_suggestions (JObj m) prev = Some r
    /\ NoDup (form_tags (data_written r))
    /\ (forall t, t ∈ form_tags (data_written r) <-> t ∈ form_tags prev \/ t ∈ g)
    /\ (NoDup (form_tags prev) ->
        exists added, form_tags (data_written r) = form_tags prev ++ added
          /\ (forall t, t ∈ added <-> t ∈ g /\ t ∉ form_tags prev))
    /\ form_title (data_written r) = form_title prev
    /\ form_url (data_written r) = form_url prev
    /\ form_status (data_written r) = form_status prev
    /\ form_notes (data_written r) = form_notes prev
    /\ category_held r
       = (if truthy_string c then c else category_value (form_category prev))
    /\ (category_written r = None <-> c = [] \/ exists k, c = category_value k).
Proof.
  intros Hg Hc. unfold apply_suggestions. rewrite Hg, Hc. cbn [mbind option_bind].
  assert (suggested_category num num_truthy (form_category prev) (Some (JStr c))
          = Some (if truthy_string c then c else category_value (form_category prev)))
    as -> by (simpl; now destruct (truthy_string c)).
  cbn [mbind option_bind]. eexists. split; [reflexivity|].
  match goal with
  | |- context [write_category ?x ?d] =>
      destruct (write_category_held x d) as (Hheld & Hwritten & Ht & Hu & Htags & Hs & Hn)
  end.
  rewrite Htags, Ht, Hu, Hs, Hn. cbn [form_tags form_title form_url form_status form_notes].
  split; [apply set_order_NoDup|]. split.
  { intros t. unfold array_from_set. rewrite set_order_elem, elem_of_app.
    split; [tauto|]. intros H. split; [exact H|]. intros H'. inversion H'. }
  split.
  { intros Hnd. exists (set_order (form_tags prev) g).
    split; [now apply array_from_set_app|]. intros t. apply set_order_elem. }
  do 4 (split; [reflexivity|]).
  split; [exact Hheld|]. rewrite Hwritten.
  destruct c as [|x c]; cbn [truthy_string].
  - split; [auto|]. intros _. now exists (form_category prev).
  - split; [auto|]. intros [H|H]; [discriminate|exact H].
Qed.

Lemma merge_no_suggestions (prev : VideoFormData) :
  merge_suggestions (no_suggestions num) prev
  = Some (mkSuggested (set_tags (array_from_set (form_tags prev)) prev) None).
Proof.
  unfold apply_suggestions, no_suggestions, set_tags.
  change (obj_get (u16 "tags") _) with (Some (@JArr num [])).
  change (obj_get (u16 "category") _) with (Some (@JStr num [])).
  cbn [mbind option_bind strings_of mapM suggested_category truthy truthy_string].
  unfold write_category. rewrite PersistenceFacts.category_of_value_value.
  cbn. now rewrite app_nil_r.
Qed.

End Merge.

Section WithClient.

Variable num : Type.
Variable num_truthy : num -> bool.
Variable JSON_parse : jsstring -> option (json num).
Variable ai : option client.

Abbreviation suggest_for := (handleAISuggest num num_truthy JSON_parse ai).
Abbreviation analyze := (handleUrlAnalyze num num_truthy JSON_parse ai).

Lemma suggestions_degraded (title : jsstring) :
  ai = None
  \/ (exists call, ai = Some call
        /\ (Spec.call_fails (call (SuggestionsRequest title))
            \/ Spec.response_empty (call (SuggestionsRequest title))
            \/ Spec.response_unparsable num JSON_parse (fun t => t)
                 (call (SuggestionsRequest title)))) ->
  generateSuggestions num JSON_parse ai title = Ok (no_suggestions num).
Proof.
  unfold generateSuggestions. intros [->|(call & -> & H)]; [reflexivity|].
  destruct H as [(e & ->)|[(t & -> & Ht)|(t & -> & Nt & Hp)]]; simpl.
  - reflexivity.
  - now rewrite Ht.
  - destruct t as [|c t]; [congruence|]. simpl. unfold parse_or_throw. now rewrite Hp.
Qed.

(** X15. The suggestion button.  With an empty title it does nothing and
    calls nothing.  Otherwise, without a client, when the call throws, when
    the response is empty and when it does not parse, the category and the
    other fields are kept and the tags lose their repeats: the form data is
    unchanged exactly when the tags were free of duplicates. *)
Theorem handleAISuggest_degraded (f : FormState) :
  (form_title (formData f) = [] -> suggest_for f = Some (f, None))
  /\ (form_title (formData f) <> [] ->
      ai = None
      \/ (exists call, ai = Some call
            /\ (Spec.call_fails (call (SuggestionsRequest (form_title (formData f))))
                \/ Spec.response_empty (call (SuggestionsRequest (form_title (formData f))))
                \/ Spec.response_unparsable num JSON_parse (fun t => t)
                     (call (SuggestionsRequest (form_title (formData f)))))) ->
      suggest_for f
      = Some (mkForm (set_tags (array_from_set (form_tags (formData f))) (formData f))
                     (tagInput f) false (isAnalyzingUrl f), None)
      /\ (NoDup (form_tags (formData f)) <->
          suggest_for f
          = Some (mkForm (formData f) (tagInput f) false (isAnalyzingUrl f), None))).
Proof.
  unfold handleAISuggest. split.
  - intros ->. reflexivity.
  - intros Ht Hd. rewrite (suggestions_degraded _ Hd), merge_no_suggestions.
    destruct (form_title (formData f)) as [|c t]; [congruence|]. simpl.
    split; [reflexivity|]. split.
    + intros Hnd. rewrite array_from_set_NoDup_id by exact Hnd.
      now destruct f as [[]].
    + intros [= E]. destruct f as [[ti u g c' s' n] inp a b]. simpl in *.
      injection E as E. rewrite <- E. apply set_order_NoDup.
Qed.

Lemma analyze_throws (f : FormState) (e : exn) :
  form_url (formData f) <> [] ->
  extractVideoMetadata num num_truthy JSON_parse ai (form_url (formData f)) = Throw e ->
  analyze f = Some (mkForm (formData f) (tagInput f) (isSuggesting f) false, true).
Proof.
  intros Hu He. unfold handleUrlAnalyze. rewrite He.
  now destruct (form_url (formData f)).
Qed.

(** X16. The analyse button.  With an empty url it does nothing and calls
    nothing.  Whatever happens, the url, the status, the tag input and the
    suggesting flag are kept.  The failure is announced exactly when the
    extraction throws (so always without a client), and the form data is
    then left as it was.  When the extraction answers, title, category,
    tags and notes are all replaced by what it answered. *)
Theorem handleUrlAnalyze_outcome (f : FormState) :
  (form_url (formData f) = [] -> analyze f = Some (f, false))
  /\ (form_url (formData f) <> [] -> ai = None ->
      analyze f = Some (mkForm (formData f) (tagInput f) (isSuggesting f) false, true))
  /\ (forall f' alerted, analyze f = Some (f', alerted) ->
        form_url (formData f') = form_url (formData f)
        /\ form_status (formData f') = form_status (formData f)
        /\ tagInput f' = tagInput f
        /\ isSuggesting f' = isSuggesting f
        /\ (alerted = true <->
            form_url (formData f) <> []
            /\ exists e, extractVideoMetadata num num_truthy JSON_parse ai
                           (form_url (formData f)) = Throw e)
        /\ (alerted = true -> formData f' = formData f)
        /\ (forall metadata,
              form_url (formData f) <> [] ->
              extractVideoMetadata num num_truthy JSON_parse ai (form_url (formData f))
              = Ok metadata ->
              md_title metadata = JStr (form_title (formData f'))
              /\ md_category metadata = form_category (formData f')
              /\ md_tags metadata = JArr (map JStr (form_tags (formData f')))
              /\ md_notes metadata = JStr (form_notes (formData f')))).
Proof.
  split; [|split].
  - unfold handleUrlAnalyze. intros ->. reflexivity.
  - intros Hu Hai. apply (analyze_throws f (Error (u16 "API Key missing")) Hu).
    now rewrite Hai.
  - intros f' alerted. unfold handleUrlAnalyze.
    destruct (form_url (formData f)) as [|c u] eqn:Eu; simpl.
    { intros [= <- <-]. rewrite Eu. repeat split; try congruence.
      intros [H _]. congruence. }
    destruct (extractVideoMetadata num num_truthy JSON_parse ai (c :: u))
      as [metadata|e] eqn:Ee.
    + unfold apply_metadata.
      destruct (string_of (md_title metadata)) as [t|] eqn:Et; [|discriminate].
      destruct (strings_of (md_tags metadata)) as [g|] eqn:Eg; [|discriminate].
      destruct (string_of (md_notes metadata)) as [n|] eqn:En; [|discriminate].
      simpl. intros [= <- <-]. simpl. rewrite Eu.
      do 4 (split; [reflexivity|]).
      split; [split; [discriminate|intros (_ & e & He); discriminate]|].
      split; [discriminate|].
      intros md _ [= <-]. split; [|split; [reflexivity|split]].
      * destruct (md_title metadata); try discriminate. simpl in Et. congruence.
      * now apply strings_of_inv.
      * destruct (md_notes metadata); try discriminate. simpl in En. congruence.
    + intros [= <- <-]. simpl. rewrite Eu.
      do 4 (split; [reflexivity|]).
      split; [split; [intros _; split; [discriminate|now exists e]|reflexivity]|].
      split; [reflexivity|]. intros md _. discriminate.
Qed.

(** X17. An answer that parses to an object without the four members
    wipes the form: title and notes become empty, the tags are dropped and
    the category is set to the "other" member, whatever the user had
    entered; url and status stay. *)
Theorem handleUrlAnalyze_bare_answer (f : FormState) (call : client) (t : jsstring)
    (m : list (jsstring * json num)) :
  ai = Some call ->
  form_url (formData f) <> [] ->
  call (MetadataRequest (form_url (formData f)) category_values)
    = Ok (mkResponse (Some t)) ->
  t <> [] ->
  JSON_parse (sanitize t) = Some (JObj m) ->
  obj_get (u16 "title") m = None -> obj_get (u16 "category") m = None ->
  obj_get (u16 "tags") m = None -> obj_get (u16 "notes") m = None ->
  analyze f
  = Some (mkForm (mkVideoFormData [] (form_url (formData f)) [] OTHER
                    (form_status (formData f)) [])
                 (tagInput f) (isSuggesting f) false, false).
Proof.
  intros Hai Hu Hc Ht Hp H1 H2 H3 H4. unfold handleUrlAnalyze.
  rewrite Hai, (ServiceFacts.extract_text _ _ _ _ _ _ Hc Ht), Hp.
  simpl Spec.member. rewrite H1, H2, H3, H4.
  destruct (form_url (formData f)) as [|c u] eqn:Eu; [congruence|].
  cbn. now rewrite Eu.
Qed.

End WithClient.

End FormFacts.

(** ** The visible list, the dialogs and the tiles *)

Module ScreenFacts.

Import App Ui Form.

#[local] Close Scope N_scope.

Lemma same_id_same_record (l : list Video) (v w : Video) :
  NoDup (id <$> l) -> v ∈ l -> w ∈ l -> id v = id w -> v = w.
Proof.
  induction l as [|x l IH]; [intros _ H; inversion H|].
  rewrite fmap_cons. intros Hnd Hv Hw E. apply NoDup_cons in Hnd as [Hx Hnd].
  apply elem_of_cons in Hv as [->|Hv]; apply elem_of_cons in Hw as [->|Hw].
  - reflexivity.
  - exfalso. apply Hx. rewrite E. now apply list_elem_of_fmap_2.
  - exfalso. apply Hx. rewrite <- E. now apply list_elem_of_fmap_2.
  - now apply IH.
Qed.

Lemma ids_of_matched (vs : list Video) (ids : list jsstring) :
  id <$> omap (fun i => matchedMap vs !! i) ids = filter (fun i => i ∈ (id <$> vs)) ids.
Proof.
  induction ids as [|i ids IH]; [reflexivity|].
  rewrite AppFacts.omap_cons_eq, filter_cons. case_decide as Hi.
  - apply AppFacts.matchedMap_is_Some in Hi as [v Hv]. rewrite Hv, fmap_cons.
    apply AppFacts.matchedMap_Some in Hv as [_ ->]. now rewrite IH.
  - destruct (matchedMap vs !! i) eqn:E; [|exact IH].
    exfalso. apply Hi, AppFacts.matchedMap_is_Some. eauto.
Qed.

Section View.

Variable toLowerCase : jsstring -> jsstring.

(** X18. The cards are keyed by record identifier.  In every mode each
    visible record is a stored record; outside an AI result the visible
    list is a sub-list of the store, order kept; and when the stored
    identifiers are unique, and the AI ids are unique where an AI result is
    shown, no two visible cards carry the same identifier. *)
Theorem view_keys (st : State) :
  (forall v, v ∈ view toLowerCase st -> v ∈ videos st)
  /\ (isAiSearchMode st && aiSearchPerformed st = false ->
      sublist (view toLowerCase st) (videos st))
  /\ (NoDup (id <$> videos st) ->
      (isAiSearchMode st && aiSearchPerformed st = true -> NoDup (aiMatchedIds st)) ->
      NoDup (id <$> view toLowerCase st)).
Proof.
  unfold view, filteredVideos.
  destruct (isAiSearchMode st && aiSearchPerformed st) eqn:Em.
  - split; [|split].
    + intros v Hv. apply list_elem_of_omap in Hv as (i & _ & Hv).
      now apply AppFacts.matchedMap_Some in Hv.
    + discriminate.
    + intros _ Hids. rewrite ids_of_matched. apply NoDup_filter. now apply Hids.
  - split; [|split].
    + intros v Hv. apply list_elem_of_In, filter_In in Hv as [Hv _].
      now apply list_elem_of_In.
    + intros _. generalize (videos st) as l.
      induction l as [|x l IH]; [constructor|]. cbn [List.filter].
      match goal with |- context [if ?c then _ else _] => destruct c end;
        now constructor.
    + intros Hnd _. now apply StoreFacts.filter_keeps_NoDup_ids.
Qed.

End View.

Lemma merge_own_form (e : Video) : merge e (form_of e) = e.
Proof. now destruct e. Qed.

(** X19. Opening the edit dialog on a stored record and submitting the
    form as the dialog filled it leaves the record list as it was, when
    the stored identifiers are unique; the dialog is closed and no record
    is left under edit. *)
Theorem edit_unchanged_roundtrip (uuid now : jsstring) (e : Video) (f : FormState)
    (s : Screen) :
  NoDup (id <$> videos (state s)) ->
  e ∈ videos (state s) ->
  videos (state (handleSubmit uuid now (formData (resetForm (Some e) f))
                   (openEditModal e s)))
  = videos (state s)
  /\ isFormOpen (handleSubmit uuid now (formData (resetForm (Some e) f))
                   (openEditModal e s)) = false
  /\ editingVideo (state (handleSubmit uuid now (formData (resetForm (Some e) f))
                            (openEditModal e s))) = None.
Proof.
  intros Hnd He. split; [|split; reflexivity]. simpl.
  apply StoreFacts.map_unchanged. intros v Hv.
  destruct (str_eqb (id v) (id e)) eqn:E; [|reflexivity].
  apply str_eqb_eq in E.
  rewrite (same_id_same_record _ _ _ Hnd Hv He E). apply merge_own_form.
Qed.

(** X20. Creating a record and then deleting it by its new identifier
    gives back the record list from before, when no stored record carried
    that identifier; and after the creation the new identifier is carried
    by the first record only. *)
Theorem create_then_delete (uuid now : jsstring) (data : VideoFormData) (st : State) :
  uuid ∉ (id <$> videos st) ->
  videos (handleDelete true uuid (handleCreate uuid now data st)) = videos st
  /\ filter (fun v => id v = uuid) (videos (handleCreate uuid now data st))
     = [newVideo uuid now data].
Proof.
  intros Hn. split.
  - simpl. rewrite str_eqb_refl. simpl. apply AppFacts.filter_all. intros v Hv.
    apply negb_true_iff, str_eqb_neq. intros E. apply Hn. rewrite <- E.
    now apply list_elem_of_fmap_2.
  - simpl. rewrite filter_cons, decide_True by reflexivity. f_equal.
    induction (videos st) as [|v l IH]; [reflexivity|].
    rewrite fmap_cons in Hn. apply not_elem_of_cons in Hn as [Hv Hl].
    rewrite filter_cons, decide_False by congruence. now apply IH.
Qed.

Lemma count_two (p q : Video -> bool) (l : list Video) :
  (forall v, p v = true -> q v = false) ->
  length (List.filter p l) + length (List.filter q l) <= length l
  /\ (length (List.filter p l) + length (List.filter q l) = length l
      <-> forall v, v ∈ l -> p v = true \/ q v = true).
Proof.
  intros Hpq. induction l as [|x l [IH1 IH2]].
  - simpl. split; [lia|]. split; [intros _ v H; inversion H|reflexivity].
  - cbn [List.filter length]. pose proof (Hpq x) as Hx.
    destruct (p x) eqn:Ep; [rewrite Hx by reflexivity|destruct (q x) eqn:Eq];
      cbn [length]; (split; [lia|]).
    + split.
      * intros E v Hv. apply elem_of_cons in Hv as [->|Hv]; [auto|].
        apply IH2; [lia|exact Hv].
      * intros H. assert (forall v, v ∈ l -> p v = true \/ q v = true) as H'
          by (intros v Hv; apply H; now constructor).
        apply IH2 in H'. lia.
    + split.
      * intros E v Hv. apply elem_of_cons in Hv as [->|Hv]; [auto|].
        apply IH2; [lia|exact Hv].
      * intros H. assert (forall v, v ∈ l -> p v = true \/ q v = true) as H'
          by (intros v Hv; apply H; now constructor).
        apply IH2 in H'. lia.
    + split; [lia|]. intros H. destruct (H x) as [E|E]; [constructor|congruence..].
Qed.

(** X21. The statistics tiles.  The unwatched and completed counts
    together never exceed the total, and reach it exactly when every
    record is unwatched or completed; a creation raises the total by one
    and the count of the new record's status, if it has a tile, by one; a
    deletion raises no count. *)
Theorem stats_counts (st : State) :
  unwatched (stats (videos st)) + completed (stats (videos st))
    <= total (stats (videos st))
  /\ (unwatched (stats (videos st)) + completed (stats (videos st))
      = total (stats (videos st))
      <-> forall v, v ∈ videos st -> status v = UNWATCHED \/ status v = COMPLETED)
  /\ (forall uuid now data,
        stats (videos (handleCreate uuid now data st))
        = mkStats (S (total (stats (videos st))))
                  (unwatched (stats (videos st))
                   + (if decide (form_status data = UNWATCHED) then 1 else 0))
                  (completed (stats (videos st))
                   + (if decide (form_status data = COMPLETED) then 1 else 0)))
  /\ (forall confirmed i,
        total (stats (videos (handleDelete confirmed i st))) <= total (stats (videos st))
        /\ unwatched (stats (videos (handleDelete confirmed i st)))
           <= unwatched (stats (videos st))
        /\ completed (stats (videos (handleDelete confirmed i st)))
           <= completed (stats (videos st))).
Proof.
  pose proof (count_two (fun v => status_eqb (status v) UNWATCHED)
                        (fun v => status_eqb (status v) COMPLETED) (videos st)) as H.
  destruct H as [H1 H2].
  { intros v. unfold status_eqb. rewrite bool_decide_eq_true, bool_decide_eq_false.
    congruence. }
  split; [exact H1|]. split.
  { unfold stats. cbn [unwatched completed total]. rewrite H2.
    unfold status_eqb. setoid_rewrite bool_decide_eq_true. reflexivity. }
  split.
  { intros uuid now data.
    change (videos (handleCreate uuid now data st))
      with (newVideo uuid now data :: videos st).
    unfold stats. cbn [List.filter length status newVideo total unwatched completed].
    destruct (form_status data); cbn; rewrite ?Nat.add_0_r, ?Nat.add_1_r; reflexivity. }
  intros [] i; simpl; [|lia].
  assert (forall (p q : Video -> bool) (l : list Video),
             length (List.filter p (List.filter q l)) <= length (List.filter p l)) as Hle.
  { intros p q l. induction l as [|x l IH]; [simpl; lia|]. cbn [List.filter].
    destruct (q x), (p x) eqn:Ep; cbn [List.filter length]; rewrite ?Ep; cbn [length]; lia. }
  split; [|split]; try apply Hle.
  generalize (videos st) as l. intros l. induction l as [|x l IH]; [simpl; lia|].
  cbn [List.filter]. destruct (negb _); cbn [length]; lia.
Qed.

End ScreenFacts.

(** ** The status badge *)

Module BadgeFacts.

Import Badge.

#[local] Close Scope N_scope.

Lemma str_eqb_sym (a b : jsstring) : str_eqb a b = str_eqb b a.
Proof.
  destruct (str_eqb b a) eqn:E.
  - apply str_eqb_eq in E. subst. apply str_eqb_refl.
  - apply str_eqb_neq in E. apply str_eqb_neq. congruence.
Qed.

(** X22. The status badge gives each member of the status enumeration a
    style of its own, and the gray default style to exactly the strings
    that are no member's value; no status style is the style of a
    category or tag badge, whose style does not depend on the value. *)
Theorem status_styles_distinguish :
  (forall s s', status_styles (status_value s) = status_styles (status_value s') ->
                s = s')
  /\ (forall value, status_styles value = default_status_styles
                     <-> status_of_value value = None)
  /\ (forall value value',
        styles StatusBadge value <> styles CategoryBadge value'
        /\ styles StatusBadge value <> styles TagBadge value'
        /\ styles CategoryBadge value <> styles TagBadge value'
        /\ styles CategoryBadge value = styles CategoryBadge value'
        /\ styles TagBadge value = styles TagBadge value').
Proof.
  split; [|split].
  - intros [] []; vm_compute; intros H; try reflexivity; discriminate H.
  - intros value. unfold status_styles, status_of_value, status_values.
    cbn [List.find].
    rewrite !(str_eqb_sym (status_value _) value).
    repeat match goal with
           | |- context [str_eqb value (status_value ?m)] =>
               destruct (str_eqb value (status_value m));
               [split; intros H; [vm_compute in H|]; discriminate H|]
           end.
    split; reflexivity.
  - intros value value'.
    assert (forall a b c : jsstring, a <> b -> c ++ a <> c ++ b) as Happ.
    { intros a b c H E. apply H. now apply app_inv_head in E. }
    split; [|split; [|split; [|split]]]; try reflexivity; unfold styles.
    + apply Happ. unfold status_styles.
      repeat match goal with
             | |- context [if ?c then _ else _] => destruct c
             end; vm_compute; discriminate.
    + apply Happ. unfold status_styles.
      repeat match goal with
             | |- context [if ?c then _ else _] => destruct c
             end; vm_compute; discriminate.
    + apply Happ. vm_compute. discriminate.
Qed.

End BadgeFacts.

(** ** The stored text *)

Module StorageFacts.

Import Persistence.

#[local] Close Scope N_scope.

(** X23. Different record lists are stored as different texts: the text
    written under the key determines the record list. *)
Theorem persist_injective (vs vs' : list Video) :
  persist vs = persist vs' -> vs = vs'.
Proof.
  intros E.
  assert (parse (persist vs) = parse (persist vs')) as H by now rewrite E.
  unfold persist in H. rewrite !JSONFacts.parse_stringify in H.
  rewrite (PersistenceFacts.lift_videos_json vs) in H.
  rewrite (PersistenceFacts.lift_videos_json vs') in H.
  injection H as H.
  assert (as_videos (videos_json vs) = as_videos (videos_json vs')) as H'.
  { unfold videos_json. now rewrite H. }
  rewrite !PersistenceFacts.as_videos_json in H'. congruence.
Qed.

Lemma as_videos_nil (j : value) : as_videos j = Some [] -> j = JArr [].
Proof.
  destruct j as [| | | |l|]; try discriminate. destruct l as [|x l]; [reflexivity|].
  cbn. destruct (as_video x); cbn; [|discriminate].
  destruct (mapM as_video l); discriminate.
Qed.

(** X24. The store starts empty exactly when nothing is stored under the
    key, when the stored text is empty, when it does not parse, and when
    it parses to the empty array. *)
Theorem initial_videos_empty_start (saved : option jsstring) :
  initial_videos saved = Some []
  <-> saved = None \/ saved = Some []
      \/ (exists text, saved = Some text
            /\ (parse text = None \/ parse text = Some (JArr []))).
Proof.
  split.
  - destruct saved as [text|]; [|auto]. destruct text as [|c t]; [auto|].
    unfold initial_videos. cbn [truthy_string].
    destruct (parse (c :: t)) as [j|] eqn:E; [|eauto 6].
    intros H. apply as_videos_nil in H. subst j. eauto 6.
  - intros [->|[->|(text & -> & [H|H])]]; [reflexivity..| |];
      unfold initial_videos; rewrite H; now destruct (truthy_string text).
Qed.

End StorageFacts.

(** ** The further properties at sample data *)

Module MoreWitnesses.

Import App Ui Service Form Samples MoreSamples.

#[local] Close Scope N_scope.

(** X2 at a state whose record under edit is no longer stored. *)
Lemma handleUpdate_absent_witness :
  editingVideo (state [va; vb] (Some vc)) = Some vc
  /\ (id vc ∉ (id <$> videos (state [va; vb] (Some vc))))
  /\ videos (handleUpdate form (state [va; vb] (Some vc)))
     = videos (state [va; vb] (Some vc))
  /\ editingVideo (handleUpdate form (state [va; vb] (Some vc))) = None.
Proof.
  assert (id vc ∉ (id <$> videos (state [va; vb] (Some vc)))) as Hn
    by (apply (bool_decide_unpack _); vm_compute; exact I).
  split; [reflexivity|]. split; [exact Hn|].
  exact (StoreFacts.handleUpdate_absent form (state [va; vb] (Some vc)) vc eq_refl Hn).
Defined.

(** X4 at the screen reached by opening the create dialog and submitting. *)
Lemma reachable_unique_ids_witness :
  reachable (screen [va; vb] None)
            (handleSubmit (u16 "c") (u16 "2024-02-02") form
               (openCreateModal (screen [va; vb] None)))
  /\ NoDup (id <$> videos (Ui.state (screen [va; vb] None)))
  /\ NoDup (id <$> videos (Ui.state (handleSubmit (u16 "c") (u16 "2024-02-02") form
                                    (openCreateModal (screen [va; vb] None))))).
Proof.
  assert (u16 "c" ∉ (id <$> videos (Ui.state (openCreateModal (screen [va; vb] None)))))
    as Hfresh by (apply (bool_decide_unpack _); vm_compute; exact I).
  assert (NoDup (id <$> videos (Ui.state (screen [va; vb] None)))) as Hnd
    by (apply (bool_decide_unpack _); vm_compute; exact I).
  assert (reachable (screen [va; vb] None)
            (handleSubmit (u16 "c") (u16 "2024-02-02") form
               (openCreateModal (screen [va; vb] None)))) as Hr.
  { eapply reachable_step.
    - eapply reachable_step; [apply reachable_here|apply step_open_create].
    - apply step_submit. exact Hfresh. }
  split; [exact Hr|]. split; [exact Hnd|].
  exact (StoreFacts.reachable_unique_ids _ _ Hr Hnd).
Defined.

(** X5 at the screen reached by typing a query, entering AI mode and
    starting a search. *)
Lemma reachable_performed_in_ai_mode_witness :
  reachable (screen [va; vb] None)
            (set_isAiSearching true
               (on_state (set_aiSearchPerformed true)
                  (on_state toggleAiSearchMode
                     (on_state (set_searchQuery (u16 "yoga")) (screen [va; vb] None)))))
  /\ (aiSearchPerformed (Ui.state (screen [va; vb] None)) = true ->
      isAiSearchMode (Ui.state (screen [va; vb] None)) = true)
  /\ aiSearchPerformed
       (Ui.state (set_isAiSearching true
                 (on_state (set_aiSearchPerformed true)
                    (on_state toggleAiSearchMode
                       (on_state (set_searchQuery (u16 "yoga")) (screen [va; vb] None))))))
     = true
  /\ isAiSearchMode
       (Ui.state (set_isAiSearching true
                 (on_state (set_aiSearchPerformed true)
                    (on_state toggleAiSearchMode
                       (on_state (set_searchQuery (u16 "yoga")) (screen [va; vb] None))))))
     = true.
Proof.
  assert (reachable (screen [va; vb] None)
            (set_isAiSearching true
               (on_state (set_aiSearchPerformed true)
                  (on_state toggleAiSearchMode
                     (on_state (set_searchQuery (u16 "yoga")) (screen [va; vb] None))))))
    as Hr.
  { eapply reachable_step.
    - eapply reachable_step.
      + eapply reachable_step;
          [apply reachable_here|apply (step_type_query _ (u16 "yoga"))].
      + apply step_toggle.
    - apply step_search_begin; reflexivity. }
  assert (aiSearchPerformed (Ui.state (screen [va; vb] None)) = true ->
          isAiSearchMode (Ui.state (screen [va; vb] None)) = true) as H0
    by (simpl; discriminate).
  split; [exact Hr|]. split; [exact H0|]. split; [reflexivity|].
  exact (StoreFacts.reachable_performed_in_ai_mode _ _ Hr H0 eq_refl).
Defined.

(** X8 at an endpoint that fails every call. *)
Lemma handleAiSearch_failed_witness :
  isAiSearchMode (Ui.state (mkScreen (ai_state [va; vb] (u16 "yoga") [] false) false false))
  = true
  /\ trim (searchQuery (Ui.state (mkScreen (ai_state [va; vb] (u16 "yoga") [] false)
                                 false false))) <> []
  /\ exists s',
       AiSearch.handleAiSearch jsstring literal_truthy JSON.parse (Some failing)
         (mkScreen (ai_state [va; vb] (u16 "yoga") [] false) false false)
       = Some (s', false)
       /\ aiSearchPerformed (Ui.state s') = true
       /\ aiMatchedIds (Ui.state s') = []
       /\ view ascii_toLowerCase (Ui.state s') = [].
Proof.
  assert (trim (searchQuery (Ui.state (mkScreen (ai_state [va; vb] (u16 "yoga") [] false)
                                      false false))) <> []) as Hq
    by (vm_compute; discriminate).
  split; [reflexivity|]. split; [exact Hq|].
  apply (AiSearchFacts.handleAiSearch_failed ascii_toLowerCase jsstring literal_truthy
           JSON.parse (Some failing)
           (mkScreen (ai_state [va; vb] (u16 "yoga") [] false) false false)
           eq_refl Hq).
  right. exists failing. split; [reflexivity|]. left. eexists. reflexivity.
Defined.

Example handleAiSearch_answered :
  (fun r => match r with
            | Some (s', alerted) =>
                Some (view ascii_toLowerCase (Ui.state s'), aiMatchedIds (Ui.state s'), alerted)
            | None => None
            end)
    (AiSearch.handleAiSearch jsstring literal_truthy JSON.parse (Some (answering ids_text))
       (mkScreen (ai_state [va; vb; vc] (u16 "yoga") [] false) false false))
  = Some ([vb; va], [u16 "b"; u16 "a"], false).
Proof. vm_compute. reflexivity. Qed.

(** X14 at two suggested tags, one of them already a tag, and a suggested
    category outside the enumeration. *)
Lemma apply_suggestions_merge_witness :
  obj_get (u16 "tags")
    [ (u16 "tags", JArr [JStr (u16 "proofs"); JStr (u16 "coq")]);
      (u16 "category", @JStr jsstring (u16 "cooking")) ] ≫= Read.strings_of
  = Some [u16 "proofs"; u16 "coq"]
  /\ obj_get (u16 "category")
       [ (u16 "tags", JArr [JStr (u16 "proofs"); JStr (u16 "coq")]);
         (u16 "category", @JStr jsstring (u16 "cooking")) ]
     = Some (JStr (u16 "cooking"))
  /\ exists r,
       apply_suggestions jsstring literal_truthy
         (JObj [ (u16 "tags", JArr [JStr (u16 "proofs"); JStr (u16 "coq")]);
                 (u16 "category", JStr (u16 "cooking")) ])
         (formData (typing "x" [u16 "coq"]))
       = Some r
       /\ NoDup (form_tags (data_written r))
       /\ category_held r = u16 "cooking"
       /\ (category_written r = None
           <-> u16 "cooking" = [] \/ exists k, u16 "cooking" = category_value k).
Proof.
  assert (obj_get (u16 "tags")
            [ (u16 "tags", JArr [JStr (u16 "proofs"); JStr (u16 "coq")]);
              (u16 "category", @JStr jsstring (u16 "cooking")) ] ≫= Read.strings_of
          = Some [u16 "proofs"; u16 "coq"]) as Hg by (vm_compute; reflexivity).
  assert (obj_get (u16 "category")
            [ (u16 "tags", JArr [JStr (u16 "proofs"); JStr (u16 "coq")]);
              (u16 "category", @JStr jsstring (u16 "cooking")) ]
          = Some (JStr (u16 "cooking"))) as Hc by (vm_compute; reflexivity).
  split; [exact Hg|]. split; [exact Hc|].
  destruct (FormFacts.apply_suggestions_merge jsstring literal_truthy _ _ _
              (formData (typing "x" [u16 "coq"])) Hg Hc)
    as (r & Hr & Hnd & _ & _ & _ & _ & _ & _ & Hheld & Hwritten).
  exists r. split; [exact Hr|]. split; [exact Hnd|]. split; [exact Hheld|exact Hwritten].
Defined.

(** The suggested category "cooking" is written to the form as it is. *)
Example apply_suggestions_cooking :
  apply_suggestions jsstring literal_truthy
    (JObj [ (u16 "tags", JArr [JStr (u16 "proofs"); JStr (u16 "coq")]);
            (u16 "category", JStr (u16 "cooking")) ])
    (formData (typing "x" [u16 "coq"]))
  = Some (mkSuggested (set_tags [u16 "coq"; u16 "proofs"] (formData (typing "x" [u16 "coq"])))
                      (Some (u16 "cooking"))).
Proof. vm_compute. reflexivity. Qed.

(** X17 at the answer [{}]. *)
Lemma handleUrlAnalyze_bare_answer_witness :
  form_url (formData (typing "x" [u16 "coq"])) <> []
  /\ JSON.parse (sanitize (u16 "{}")) = Some (JObj [])
  /\ handleUrlAnalyze jsstring literal_truthy JSON.parse (Some (answering (u16 "{}")))
       (typing "x" [u16 "coq"])
     = Some (mkForm (mkVideoFormData [] (form_url (formData (typing "x" [u16 "coq"]))) []
                       OTHER (form_status (formData (typing "x" [u16 "coq"]))) [])
                    (tagInput (typing "x" [u16 "coq"]))
                    (isSuggesting (typing "x" [u16 "coq"])) false, false).
Proof.
  assert (form_url (formData (typing "x" [u16 "coq"])) <> []) as Hu
    by (vm_compute; discriminate).
  assert (JSON.parse (sanitize (u16 "{}")) = Some (JObj [])) as Hp
    by (vm_compute; reflexivity).
  assert (u16 "{}" <> []) as Ht by (vm_compute; discriminate).
  split; [exact Hu|]. split; [exact Hp|].
  exact (FormFacts.handleUrlAnalyze_bare_answer jsstring literal_truthy JSON.parse
           (Some (answering (u16 "{}"))) (typing "x" [u16 "coq"])
           (answering (u16 "{}")) (u16 "{}") [] eq_refl Hu eq_refl Ht Hp
           eq_refl eq_refl eq_refl eq_refl).
Defined.

(** X19 at the second of two records. *)
Lemma edit_unchanged_roundtrip_witness :
  NoDup (id <$> videos (Ui.state (screen [va; vb] None)))
  /\ vb ∈ videos (Ui.state (screen [va; vb] None))
  /\ videos (Ui.state (handleSubmit (u16 "c") (u16 "2024-02-02")
                      (formData (resetForm (Some vb) (typing "x" [])))
                      (openEditModal vb (screen [va; vb] None))))
     = videos (Ui.state (screen [va; vb] None))
  /\ isFormOpen (handleSubmit (u16 "c") (u16 "2024-02-02")
                   (formData (resetForm (Some vb) (typing "x" [])))
                   (openEditModal vb (screen [va; vb] None))) = false
  /\ editingVideo (Ui.state (handleSubmit (u16 "c") (u16 "2024-02-02")
                            (formData (resetForm (Some vb) (typing "x" [])))
                            (openEditModal vb (screen [va; vb] None)))) = None.
Proof.
  assert (NoDup (id <$> videos (Ui.state (screen [va; vb] None)))) as Hnd
    by (apply (bool_decide_unpack _); vm_compute; exact I).
  assert (vb ∈ videos (Ui.state (screen [va; vb] None))) as Hin
    by (simpl; apply list_elem_of_further, list_elem_of_here).
  split; [exact Hnd|]. split; [exact Hin|].
  exact (ScreenFacts.edit_unchanged_roundtrip (u16 "c") (u16 "2024-02-02") vb
           (typing "x" []) (screen [va; vb] None) Hnd Hin).
Defined.

(** Two records sharing an identifier: the same round trip changes the
    other record. *)
Example edit_unchanged_shared_id :
  videos (Ui.state (handleSubmit (u16 "c") (u16 "2024-02-02")
                   (formData (resetForm (Some va) (typing "x" [])))
                   (openEditModal va (screen [va; va'] None))))
  = [va; va].
Proof. vm_compute. reflexivity. Qed.

(** X20 at a fresh identifier. *)
Lemma create_then_delete_witness :
  (u16 "c" ∉ (id <$> videos (state [va; vb] None)))
  /\ videos (handleDelete true (u16 "c")
               (handleCreate (u16 "c") (u16 "2024-02-02") form (state [va; vb] None)))
     = videos (state [va; vb] None)
  /\ filter (fun v => id v = u16 "c")
       (videos (handleCreate (u16 "c") (u16 "2024-02-02") form (state [va; vb] None)))
     = [newVideo (u16 "c") (u16 "2024-02-02") form].
Proof.
  assert (u16 "c" ∉ (id <$> videos (state [va; vb] None))) as Hn
    by (apply (bool_decide_unpack _); vm_compute; exact I).
  split; [exact Hn|].
  exact (ScreenFacts.create_then_delete (u16 "c") (u16 "2024-02-02") form
           (state [va; vb] None) Hn).
Defined.

(** X23 at a one-record list. *)
Lemma persist_injective_witness :
  Persistence.persist [va] = Persistence.persist [va] /\ [va] = [va].
Proof.
  split; [reflexivity|].
  exact (StorageFacts.persist_injective [va] [va] eq_refl).
Defined.

Example addTag_samples :
  form_tags (formData (addTag (typing "  rocq " [u16 "coq"]))) = [u16 "coq"; u16 "rocq"]
  /\ tagInput (addTag (typing "  rocq " [u16 "coq"])) = []
  /\ addTag (typing " coq" [u16 "coq"]) = typing " coq" [u16 "coq"]
  /\ addTag (typing "   " [u16 "coq"]) = typing "   " [u16 "coq"].
Proof. vm_compute. auto. Qed.

(** The suggestion button with no client drops a repeated tag. *)
Example handleAISuggest_repeated_tag :
  handleAISuggest jsstring literal_truthy JSON.parse None
    (typing "x" [u16 "coq"; u16 "coq"])
  = Some (typing "x" [u16 "coq"], None).
Proof. vm_compute. reflexivity. Qed.

Example handleAISuggest_answered :
  handleAISuggest jsstring literal_truthy JSON.parse (Some (answering suggestions_text))
    (typing "x" [u16 "coq"])
  = Some (typing "x" [u16 "coq"; u16 "proofs"], None).
Proof. vm_compute. reflexivity. Qed.

(** A suggested category outside the enumeration reaches the form. *)
Example handleAISuggest_cooking :
  handleAISuggest jsstring literal_truthy JSON.parse
    (Some (answering cooking_suggestions_text)) (typing "x" [u16 "coq"])
  = Some (typing "x" [u16 "coq"; u16 "proofs"], Some (u16 "cooking")).
Proof. vm_compute. reflexivity. Qed.

(** A failed call is stored as the summary. *)
Example handleGenerateSummary_failing :
  videos (fst (fst (Detail.handleGenerateSummary (Some failing) vb
                      (Detail.mkDetail false [] true) (state [va; vb] None))))
  = [va; Detail.with_summary vb
           (u16 "Error connecting to AI service. Please try again later.")].
Proof. vm_compute. reflexivity. Qed.

End MoreWitnesses.
